(** * dila2sql importer: the archive orchestration core

    A shallow embedding of
    [packages/dila2sql/dila2sql/importer/process_archive.py] and the
    properties of its chunking, walking, classification, dispatch,
    statistics merging and suppression pass.

    Conventions of the embedding.
    - Python [int] is [Z]; [str] is [string] (byte strings: paths and
      identifiers are ASCII in the archives); [bytes] is [list Byte.byte].
    - [defaultdict(zero)] is a [gmap string Z] read with default [0].
    - An archive file is the list of its entries, in stream order.
    - Exceptions are an explicit [outcome]; calls to the external
      collaborators (archive reader, store connection, per-document
      processor, suppression routine) are recorded in an event trace. *)

From Stdlib Require Import ZArith List String Ascii Strings.Byte Lia Bool.
From stdpp Require Import base option list gmap strings fin_maps.

Local Open Scope string_scope.
Local Open Scope list_scope.
Local Open Scope Z_scope.

(** ** Python primitives used by the module *)

Module Py.

Inductive exn :=
| IndexError
| ValueError
| ZeroDivisionError
| UnicodeDecodeError
| ExternalError (tag : string).

Inductive outcome (A : Type) :=
| Ok (a : A)
| Raise (e : exn).
Arguments Ok {A} a.
Arguments Raise {A} e.

#[export] Instance outcome_ret : MRet outcome := fun _ a => Ok a.
#[export] Instance outcome_bind : MBind outcome := fun _ _ k m =>
  match m with
  | Ok a => k a
  | Raise e => Raise e
  end.

(** [range(n)]. *)
Definition range (n : Z) : list Z := map Z.of_nat (seq 0 (Z.to_nat n)).

(** [a or b] and [a and b] on expressions that may raise: the right
    operand is evaluated only when the left one does not decide. *)
Definition or_else (a b : outcome bool) : outcome bool :=
  x ← a; if x : bool then Ok true else b.
Definition and_then (a b : outcome bool) : outcome bool :=
  x ← a; if x : bool then b else Ok false.

(** [x in l] / [x not in l] on a list of strings. *)
Definition str_in (x : string) (l : list string) : bool :=
  existsb (String.eqb x) l.

(** [seq[i]] for a non-negative literal index [i]. *)
Definition index {A} (l : list A) (i : nat) : outcome A :=
  match l !! i with
  | Some x => Ok x
  | None => Raise IndexError
  end.

(** [seq[-1]]. *)
Definition index_last {A} (l : list A) : outcome A :=
  match last l with
  | Some x => Ok x
  | None => Raise IndexError
  end.

(** [s.split('/')]: the segments between separators; never empty. *)
Fixpoint split_on (sep : ascii) (s : string) : list string :=
  match s with
  | EmptyString => [EmptyString]
  | String c s' =>
      if Ascii.eqb c sep then EmptyString :: split_on sep s'
      else match split_on sep s' with
           | seg :: segs => String c seg :: segs
           | [] => [String c EmptyString]
           end
  end.

(** [s[-1]]. *)
Fixpoint last_char (s : string) : outcome ascii :=
  match s with
  | EmptyString => Raise IndexError
  | String c EmptyString => Ok c
  | String _ s' => last_char s'
  end.

(** [s[n:]]. *)
Fixpoint drop_chars (n : nat) (s : string) : string :=
  match n, s with
  | O, _ => s
  | S n', String _ s' => drop_chars n' s'
  | S _, EmptyString => EmptyString
  end.

(** [s[:n]] for [n >= 0]. *)
Fixpoint take_chars (n : nat) (s : string) : string :=
  match n, s with
  | S n', String c s' => String c (take_chars n' s')
  | _, _ => EmptyString
  end.

(** [s[:-4]]: everything but the last four characters (empty when the
    string has at most four). *)
Definition strip_last4 (s : string) : string :=
  take_chars (String.length s - 4) s.

(** [s.startswith(p)]. *)
Definition startswith (p s : string) : bool := String.prefix p s.

Definition lower_char (c : ascii) : ascii :=
  let n := nat_of_ascii c in
  if (Nat.leb 65 n && Nat.leb n 90)%bool then ascii_of_nat (n + 32) else c.

(** [s.lower()] on ASCII text. *)
Fixpoint lower (s : string) : string :=
  match s with
  | EmptyString => EmptyString
  | String c s' => String (lower_char c) (lower s')
  end.

(** [b.decode('ascii')]. *)
Fixpoint decode_ascii (b : list byte) : outcome string :=
  match b with
  | [] => Ok EmptyString
  | x :: b' =>
      if (Byte.to_N x <? 128)%N then
        match decode_ascii b' with
        | Ok s => Ok (String (ascii_of_byte x) s)
        | Raise e => Raise e
        end
      else Raise UnicodeDecodeError
  end.

(** The characters [str.split()] treats as separators in ASCII text. *)
Definition isspace (c : ascii) : bool :=
  let n := nat_of_ascii c in
  ((Nat.leb 9 n && Nat.leb n 13) || (Nat.leb 28 n && Nat.leb n 32))%bool.

(** [s.split()]: maximal runs of non-blank characters.  [cur] is the
    word being read, if one has started. *)
Fixpoint split_ws_aux (cur : option string) (s : string) : list string :=
  match s with
  | EmptyString =>
      match cur with Some w => [w] | None => [] end
  | String c s' =>
      if isspace c then
        match cur with
        | Some w => w :: split_ws_aux None s'
        | None => split_ws_aux None s'
        end
      else
        split_ws_aux (Some (match cur with
                            | Some w => w +:+ String c EmptyString
                            | None => String c EmptyString
                            end)) s'
  end.

Definition split_ws (s : string) : list string := split_ws_aux None s.

End Py.
Export Py.


(** ** Data model *)

(** An archive entry as the reader exposes it: [entry.pathname],
    [entry.mtime] and the byte blocks of [entry.get_blocks()]. *)
Record Entry := {
  pathname : string;
  mtime : Z;
  get_blocks : list (list byte);
}.

(** The tuple [(xml_blob, mtime, base, table, dossier, text_cid, text_id,
    process_links)] handed to [process_xml]. *)
Record Job := {
  xml_blob : list byte;
  job_mtime : Z;
  job_base : string;
  job_table : string;
  job_dossier : option string;
  job_text_cid : option string;
  job_text_id : string;
  job_process_links : bool;
}.

(** [d[key] += n] on a [defaultdict] whose factory returns [0]. *)
Definition incr (d : gmap string Z) (key : string) (n : Z) : gmap string Z :=
  <[key := default 0 (d !! key) + n]> d.

(** Reading a counter: a missing key counts as [0]. *)
Definition count_of (d : gmap string Z) (key : string) : Z :=
  default 0 (d !! key).

(** ** The chunked archive walker *)

(** Modelled from the spec: [consume] lives in [dila2sql/utils.py], which
    is not part of the sources at hand.  The spec (4.2) and the call-site
    comment say it advances the stream past the first [n] entries. *)
Definition consume (archive : list Entry) (n : Z) : list Entry :=
  drop (Z.to_nat n) archive.

(** The [for entry in progressbar_iterator] loop of
    [iterate_archive_chunk_entries]: [rest] is what the stream still
    holds, the result is the sequence of yielded entries. *)
Fixpoint walk_entries (rest : list Entry) (idx chunk_end_idx : Z) : list Entry :=
  match rest with
  | [] => []
  | entry :: rest' =>
      if idx >? chunk_end_idx then []
      else entry :: walk_entries rest' (idx + 1) chunk_end_idx
  end.

Definition iterate_archive_chunk_entries
    (archive : list Entry) (chunk_start_idx chunk_end_idx : Z) : list Entry :=
  let archive := consume archive chunk_start_idx in
  let idx := chunk_start_idx in
  walk_entries archive idx chunk_end_idx.

(** ** Chunk construction (lines 29-32 of [process_archive]) *)

Definition build_chunks (CHUNK_SIZE total : Z) : outcome (list (Z * Z)) :=
  if CHUNK_SIZE =? 0 then Raise ZeroDivisionError else
  let chunks_count := total / CHUNK_SIZE in
  let last_chunk_size := total mod CHUNK_SIZE in
  let chunks :=
    map (fun i => (i * CHUNK_SIZE, (i + 1) * CHUNK_SIZE)) (range chunks_count) in
  '(_, last_idx) ← index_last chunks;
  Ok (chunks ++
      (if last_chunk_size >? 0 then [(last_idx, last_idx + last_chunk_size)]
       else [])).

(** ** The entry classifier and job materializer *)

Section Classifier.

(** The path-classification collaborators of [importer/utils.py], taken
    as parameters: [get_table(parts)] answers a table name or [None],
    [get_dossier(parts, base)] a dossier key or [None]. *)
Variable get_table : list string -> option string.
Variable get_dossier : list string -> string -> option string.

(** ['liste_suppression_'+base.lower()+'.dat'] *)
Definition suppression_file (base : string) : string :=
  "liste_suppression_" +:+ lower base +:+ ".dat".

(** The condition of lines 101-106.  [parts[2]] is read only by the
    disjunct whose family test succeeded. *)
Definition unknown_folder_test (parts : list string) : outcome bool :=
  or_else (p0 ← index parts 0; Ok (negb (str_in p0 ["legi"; "jorf"; "kali"])))
 (or_else (and_then (p0 ← index parts 0; Ok (String.eqb p0 "legi"))
                    (p2 ← index parts 2;
                     Ok (negb (startswith "code_et_TNC_" p2))))
 (or_else (and_then (p0 ← index parts 0; Ok (String.eqb p0 "jorf"))
                    (p2 ← index parts 2;
                     Ok (negb (str_in p2 ["article"; "section_ta"; "texte"]))))
          (and_then (p0 ← index parts 0; Ok (String.eqb p0 "kali"))
                    (p2 ← index parts 2;
                     Ok (negb (str_in p2 ["article"; "section_ta"; "texte";
                                          "conteneur"])))))).

(** Lines 101-119: what happens once [parts] has its final value.  The
    result is the returned value ([None] or a job tuple) and the
    unknown-folder tally as the call leaves it. *)
Definition route_parts (entry : Entry) (parts : list string) (base : string)
    (unknown_folders : gmap string Z) (process_links : bool)
  : outcome (option Job * gmap string Z) :=
  unknown ← unknown_folder_test parts;
  if unknown : bool then
    p2 ← index parts 2;
    Ok (None, incr unknown_folders p2 1)
  else
    let table := get_table parts in
    let dossier := get_dossier parts base in
    text_cid ← (if String.eqb base "LEGI"
                then p11 ← index parts 11; Ok (Some p11)
                else Ok None);
    name ← index_last parts;
    let text_id := strip_last4 name in
    match table with
    | None => Ok (None, incr unknown_folders text_id 1)
    | Some table =>
        let xml_blob := concat (get_blocks entry) in
        let mtime := mtime entry in
        Ok (Some {| xml_blob := xml_blob; job_mtime := mtime;
                    job_base := base; job_table := table;
                    job_dossier := dossier; job_text_cid := text_cid;
                    job_text_id := text_id;
                    job_process_links := process_links |},
            unknown_folders)
    end.

(** Lines 98-100: an archive whose paths carry one extra leading
    segment before the dataset folder has that segment removed. *)
Definition strip_base_prefix (base path : string) (parts : list string)
  : outcome (string * list string) :=
  p1 ← index parts 1;
  if String.eqb p1 (lower base) then
    p0 ← index parts 0;
    Ok (drop_chars (String.length p0 + 1) path, drop 1 parts)
  else Ok (path, parts).

(** [get_process_xml_job_args_for_entry].  The two accumulators the
    function mutates in place, [liste_suppression] (a list, extended by
    [+=]) and [unknown_folders], are returned in their final state next
    to the function's own return value.  The parameters [counts],
    [skipped], [db] and [db_url] are not used by the body and are left
    out. *)
Definition get_process_xml_job_args_for_entry
    (entry : Entry) (base : string)
    (liste_suppression : list string) (unknown_folders : gmap string Z)
    (process_links : bool)
  : outcome (option Job * list string * gmap string Z) :=
  let path := pathname entry in
  let parts := split_on "/" path in
  c ← last_char path;
  if Ascii.eqb c "/" then Ok (None, liste_suppression, unknown_folders)
  else
    name ← index_last parts;
    if String.eqb name (suppression_file base) then
      text ← decode_ascii (concat (get_blocks entry));
      Ok (None, liste_suppression ++ split_ws text, unknown_folders)
    else
      '(path, parts) ← strip_base_prefix base path parts;
      '(job, unknown_folders) ←
        route_parts entry parts base unknown_folders process_links;
      Ok (job, liste_suppression, unknown_folders).

(** The list comprehension of lines 40-46: one classifier call per
    walked entry, in order, on the shared accumulators. *)
Fixpoint collect_job_args (entries : list Entry) (base : string)
    (liste_suppression : list string) (unknown_folders : gmap string Z)
    (process_links : bool)
  : outcome (list (option Job) * list string * gmap string Z) :=
  match entries with
  | [] => Ok ([], liste_suppression, unknown_folders)
  | entry :: entries' =>
      '(a, liste_suppression, unknown_folders) ←
        get_process_xml_job_args_for_entry
          entry base liste_suppression unknown_folders process_links;
      '(args, liste_suppression, unknown_folders) ←
        collect_job_args entries' base liste_suppression unknown_folders
          process_links;
      Ok (a :: args, liste_suppression, unknown_folders)
  end.

(** [[a for a in process_xml_jobs_args if a is not None]] *)
Definition not_none (args : list (option Job)) : list Job := omap id args.

End Classifier.

(** ** Statistics *)

(** [merge_counts(sub_counts, sub_skipped, counts, skipped)].  [counts] is
    a dictionary object shared with the caller and updated in place: the
    result is its content after the call.  [skipped] is an [int]
    parameter: [skipped += sub_skipped] rebinds the name inside the call
    and the caller's variable keeps its value, so nothing is returned for
    it. *)
Definition merge_counts (sub_counts : gmap string Z) (sub_skipped : Z)
    (counts : gmap string Z) (skipped : Z) : gmap string Z :=
  let skipped := skipped + sub_skipped in
  map_fold (fun key count counts => incr counts key count) counts sub_counts.

(** ** Effects: the event trace *)

Section Importer.

(** Store connection handles. *)
Context {DB : Type}.

Inductive event :=
| EFileReader                         (* libarchive.file_reader(archive_path) *)
| EConnect (db_url : string) (db : DB) (* connect_db(db_url) returned db *)
| EInitProxy (db : DB)                (* db_proxy.initialize(db) *)
| EProcessXml (job : Job)             (* process_xml( *job ) *)
| ECommit (db : DB)                   (* db.commit() *)
| ESuppress (base : string) (db : DB) (ids : list string).
                                      (* suppress(base, db, ids) *)

Definition trace := list event.

(** A computation extends the trace and returns or raises. *)
Definition M (A : Type) : Type := trace -> trace * outcome A.

#[global] Instance M_ret : MRet M := fun _ a tr => (tr, Ok a).
#[global] Instance M_bind : MBind M := fun _ _ k m tr =>
  match m tr with
  | (tr', Ok a) => k a tr'
  | (tr', Raise e) => (tr', Raise e)
  end.

Definition emit (ev : event) : M unit := fun tr => (tr ++ [ev], Ok tt).
Definition lift {A} (o : outcome A) : M A := fun tr => (tr, o).

(** *** Configuration and collaborators *)

(** The module constants. [MAX_PROCESSES] is read from the environment
    ([None] when unset). *)
Variable PROCESS_XML_JOBS_BATCH_SIZE : Z.
Variable MAX_PROCESSES : option Z.
Variable CHUNK_SIZE : Z.

Variable get_table : list string -> option string.
Variable get_dossier : list string -> string -> option string.

(** [connect_db(db_url)]: the handle it returns may depend on what
    happened before. *)
Variable connect_db : trace -> string -> DB.

(** [process_xml( *job )]: the statistics [(counts, skipped)] it reports,
    or the exception it raises, given the history of the run. *)
Variable process_xml : trace -> Job -> outcome (gmap string Z * Z).

(** [concurrent.futures.as_completed]: the order in which the submitted
    batches finish. *)
Variable as_completed : list (list Job) -> list (list Job).

Definition call_connect_db (db_url : string) : M DB := fun tr =>
  let db := connect_db tr db_url in (tr ++ [EConnect db_url db], Ok db).

Definition call_process_xml (job : Job) : M (gmap string Z * Z) := fun tr =>
  (tr ++ [EProcessXml job], process_xml tr job).

(** *** Sequential executor *)

(** The [for arg_list in wrapped_jobs_args] loop; [counts] and [skipped]
    are the function's locals. *)
Fixpoint process_xml_jobs_loop (jobs_args : list Job) (db : DB)
    (commit : bool) (counts : gmap string Z) (skipped : Z)
  : M (gmap string Z * Z) :=
  match jobs_args with
  | [] => mret (counts, skipped)
  | arg_list :: jobs_args' =>
      '(xml_counts, xml_skipped) ← call_process_xml arg_list;
      let counts := merge_counts xml_counts xml_skipped counts skipped in
      _ ← (if commit then emit (ECommit db) else mret tt);
      process_xml_jobs_loop jobs_args' db commit counts skipped
  end.

(** [process_xml_jobs_sync(jobs_args, progress, db, commit)]; the
    progress bar only wraps the iteration. *)
Definition process_xml_jobs_sync (jobs_args : list Job) (progress : bool)
    (db : DB) (commit : bool) : M (gmap string Z * Z) :=
  let '(counts, skipped) := (∅, 0) in
  process_xml_jobs_loop jobs_args db commit counts skipped.

(** *** Worker pool *)

Definition process_xml_jobs_batch (jobs_args_batch : list Job)
    (db_url : string) : M (gmap string Z * Z) :=
  db ← call_connect_db db_url;
  _ ← emit (EInitProxy db);
  '(batch_counts, batch_skipped) ←
    process_xml_jobs_sync jobs_args_batch false db false;
  _ ← emit (ECommit db);
  mret (batch_counts, batch_skipped).

(** [l[i:i+size] for i in range(0, len(l), size)] for [size > 0];
    [fuel] bounds the number of slices by the length of the input. *)
Fixpoint slices (fuel size : nat) (l : list Job) : list (list Job) :=
  match fuel, l with
  | S fuel', _ :: _ => take size l :: slices fuel' size (drop size l)
  | _, _ => []
  end.

(** A zero step makes [range] raise; a negative one gives no slice. *)
Definition make_batches (jobs_args : list Job) : outcome (list (list Job)) :=
  if PROCESS_XML_JOBS_BATCH_SIZE =? 0 then Raise ValueError
  else if PROCESS_XML_JOBS_BATCH_SIZE <? 0 then Ok []
  else Ok (slices (length jobs_args)
                  (Z.to_nat PROCESS_XML_JOBS_BATCH_SIZE) jobs_args).

(** The executor runs every submitted batch to its end, whether or not
    another one fails.  The workers' events are recorded batch by batch
    in completion order. *)
Fixpoint run_futures (batches : list (list Job)) (db_url : string)
  : trace -> trace * list (outcome (gmap string Z * Z)) :=
  fun tr =>
    match batches with
    | [] => (tr, [])
    | batch :: batches' =>
        let '(tr1, r) := process_xml_jobs_batch batch db_url tr in
        let '(tr2, rs) := run_futures batches' db_url tr1 in
        (tr2, r :: rs)
    end.

(** The [for future in as_completed(futures)] loop: [future.result()]
    re-raises what the worker raised. *)
Fixpoint collect_futures (results : list (outcome (gmap string Z * Z)))
    (counts : gmap string Z) (skipped : Z) : outcome (gmap string Z * Z) :=
  match results with
  | [] => Ok (counts, skipped)
  | future :: results' =>
      '(batch_counts, batch_skipped) ← future;
      let counts := merge_counts batch_counts batch_skipped counts skipped in
      collect_futures results' counts skipped
  end.

(** [ProcessPoolExecutor(max_workers=MAX_PROCESSES)]: the constructor
    refuses a worker maximum that is given and not positive. *)
Definition pool_executor : outcome unit :=
  match MAX_PROCESSES with
  | Some max_workers => if max_workers <=? 0 then Raise ValueError else Ok tt
  | None => Ok tt
  end.

Definition process_xml_jobs_in_parallel (process_xml_jobs_args : list Job)
    (db_url : string) : M (gmap string Z * Z) :=
  let '(counts, skipped) := (∅, 0) in
  batches ← lift (make_batches process_xml_jobs_args);
  _ ← lift pool_executor;
  results ← (fun tr =>
               let '(tr', results) :=
                 run_futures (as_completed batches) db_url tr in
               (tr', Ok results)) : M _;
  lift (collect_futures results counts skipped).

(** *** The driver *)

(** [DBMeta.get(DBMeta.key == 'base').value]: the dataset base stored
    in the database, possibly [None]. *)
Variable stored_base : option string.

(** [... .value or 'LEGI'] *)
Definition dataset_base : string :=
  match stored_base with
  | Some v => if String.eqb v "" then "LEGI" else v
  | None => "LEGI"
  end.

(** The test of line 49 on [len(process_xml_jobs_args)]. *)
Definition use_process_pool (jobs_count : Z) : bool :=
  negb (bool_decide (MAX_PROCESSES = Some 1))
  && (jobs_count >? 10 * PROCESS_XML_JOBS_BATCH_SIZE).

(** Lines 49-52: the pool for large job lists, the sequential executor
    (with a progress bar and a commit per job) otherwise. *)
Definition dispatch_jobs (process_xml_jobs_args : list Job) (db : DB)
    (db_url : string) : M (gmap string Z * Z) :=
  if use_process_pool (Z.of_nat (length process_xml_jobs_args))
  then process_xml_jobs_in_parallel process_xml_jobs_args db_url
  else process_xml_jobs_sync process_xml_jobs_args true db true.

(** The locals of [process_archive] that outlive a chunk. *)
Record run_state := {
  rs_counts : gmap string Z;
  rs_skipped : Z;
  rs_liste_suppression : list string;
  rs_unknown_folders : gmap string Z;
}.

(** The body of the [for chunk_idx, chunk in enumerate(chunks)] loop. *)
Definition process_chunk (db : DB) (db_url : string) (archive : list Entry)
    (process_links : bool) (base : string) (chunk : Z * Z) (st : run_state)
  : M run_state :=
  let '(chunk_start_idx, chunk_end_idx) := chunk in
  _ ← emit EFileReader;
  let entries :=
    iterate_archive_chunk_entries archive chunk_start_idx chunk_end_idx in
  '(process_xml_jobs_args, liste_suppression, unknown_folders) ←
    lift (collect_job_args get_table get_dossier entries base
            (rs_liste_suppression st) (rs_unknown_folders st) process_links);
  let process_xml_jobs_args := not_none process_xml_jobs_args in
  '(chunk_counts, chunk_skipped) ←
    dispatch_jobs process_xml_jobs_args db db_url;
  let counts :=
    merge_counts chunk_counts chunk_skipped (rs_counts st) (rs_skipped st) in
  mret {| rs_counts := counts; rs_skipped := rs_skipped st;
          rs_liste_suppression := liste_suppression;
          rs_unknown_folders := unknown_folders |}.

Fixpoint process_chunks (db : DB) (db_url : string) (archive : list Entry)
    (process_links : bool) (base : string) (chunks : list (Z * Z))
    (st : run_state) : M run_state :=
  match chunks with
  | [] => mret st
  | chunk :: chunks' =>
      st ← process_chunk db db_url archive process_links base chunk st;
      process_chunks db db_url archive process_links base chunks' st
  end.

(** Lines 55-58. *)
Definition apply_suppression (db_url base : string)
    (liste_suppression : list string) : M unit :=
  match liste_suppression with
  | [] => mret tt
  | _ :: _ =>
      db ← call_connect_db db_url;
      _ ← emit (EInitProxy db);
      emit (ESuppress base db liste_suppression)
  end.

(** [process_archive(db, db_url, archive_path, process_links)], with the
    archive file given by its entries.  The function prints its summary
    and returns nothing: the model returns the locals the summary is
    printed from. *)
Definition process_archive (db : DB) (db_url : string)
    (archive : list Entry) (process_links : bool) : M run_state :=
  let base := dataset_base in
  let st := {| rs_counts := ∅; rs_skipped := 0;
               rs_liste_suppression := []; rs_unknown_folders := ∅ |} in
  _ ← emit EFileReader;
  let total := Z.of_nat (length archive) in
  chunks ← lift (build_chunks CHUNK_SIZE total);
  st ← process_chunks db db_url archive process_links base chunks st;
  _ ← apply_suppression db_url base (rs_liste_suppression st);
  mret st.

End Importer.

Arguments event : clear implicits.
Arguments trace : clear implicits.
Arguments run_state : clear implicits.

(** ** Vocabulary of the statements *)

Definition is_suppress {DB} (ev : event DB) : bool :=
  match ev with ESuppress _ _ _ => true | _ => false end.

Definition is_file_reader {DB} (ev : event DB) : bool :=
  match ev with EFileReader => true | _ => false end.

Definition is_commit {DB} (ev : event DB) : bool :=
  match ev with ECommit _ => true | _ => false end.

(** Events of job execution: connections, per-document processing and
    commits. *)
Definition is_job_event {DB} (ev : event DB) : bool :=
  match ev with
  | EFileReader | ESuppress _ _ _ => false
  | _ => true
  end.

(** What one job leaves in the trace of the sequential loop. *)
Definition job_events {DB} (db : DB) (commit : bool) (job : Job)
  : list (event DB) :=
  EProcessXml job :: (if commit then [ECommit db] else []).

(** [count p tr]: how many events of [tr] satisfy [p]. *)
Definition count {DB} (p : event DB -> bool) (tr : trace DB) : nat :=
  length (List.filter p tr).

(** [emits P m]: whatever the history, [m] only appends events that
    satisfy [P]. *)
Definition emits {DB A} (P : event DB -> bool) (m : @M DB A) : Prop :=
  forall tr, exists d, (m tr).1 = tr ++ d /\ forallb P d = true.

(** The identifiers one entry contributes to the suppression list: the
    whitespace-separated words of its payload when it is a suppression
    list file, none otherwise. *)
Definition suppression_ids_of_entry (base : string) (entry : Entry)
  : list string :=
  match last_char (pathname entry) with
  | Ok c =>
      if Ascii.eqb c "/" then []
      else match index_last (split_on "/" (pathname entry)) with
           | Ok name =>
               if String.eqb name (suppression_file base) then
                 match decode_ascii (concat (get_blocks entry)) with
                 | Ok text => split_ws text
                 | Raise _ => []
                 end
               else []
           | Raise _ => []
           end
  | Raise _ => []
  end.

(** The identifiers found while walking the given chunks, in order. *)
Definition suppression_ids_of_chunks (base : string) (archive : list Entry)
    (chunks : list (Z * Z)) : list string :=
  flat_map (fun chunk : Z * Z =>
              flat_map (suppression_ids_of_entry base)
                (iterate_archive_chunk_entries archive chunk.1 chunk.2))
           chunks.

(** The segments the family and category checks look at: those of the
    path, without the first one when the second is the lower-cased base
    (lines 98-100). *)
Definition effective_parts (base path : string) : list string :=
  let parts := split_on "/" path in
  match parts !! 1%nat with
  | Some p1 => if String.eqb p1 (lower base) then drop 1 parts else parts
  | None => parts
  end.

(** The same entry under another path. *)
Definition with_pathname (entry : Entry) (path : string) : Entry :=
  {| pathname := path; mtime := mtime entry; get_blocks := get_blocks entry |}.

(** What the classifier returns once [route_parts] has answered: the
    suppression list is passed through. *)
Definition routed (liste_suppression : list string)
    (r : outcome (option Job * gmap string Z))
  : outcome (option Job * list string * gmap string Z) :=
  '(job, unknown_folders) ← r; Ok (job, liste_suppression, unknown_folders).

(** The two ways a path fails the classification checks, on its first
    segment [p0] and third segment [p2]. *)
Definition unknown_family (p0 : string) : Prop :=
  str_in p0 ["legi"; "jorf"; "kali"] = false.

Definition disallowed_category (p0 p2 : string) : Prop :=
  (p0 = "legi" /\ startswith "code_et_TNC_" p2 = false)
  \/ (p0 = "jorf" /\ str_in p2 ["article"; "section_ta"; "texte"] = false)
  \/ (p0 = "kali"
      /\ str_in p2 ["article"; "section_ta"; "texte"; "conteneur"] = false).

(** The values the module gives its constants. *)
Definition source_PROCESS_XML_JOBS_BATCH_SIZE : Z := 1000.
Definition source_CHUNK_SIZE : Z := 500000.

(** ** Sample data used by the examples *)

(** Entries of the spec's classification example, for the base [JORF]. *)
Definition entry_directory : Entry :=
  {| pathname := "jorf/global/"; mtime := 10; get_blocks := [] |}.
Definition entry_unrecognized : Entry :=
  {| pathname := "unrecognized_folder/global/misc/doc.xml"; mtime := 11;
     get_blocks := [] |}.
Definition entry_disallowed : Entry :=
  {| pathname := "jorf/global/disallowed_category/doc.xml"; mtime := 12;
     get_blocks := [] |}.
Definition entry_valid : Entry :=
  {| pathname := "jorf/global/article/JORFARTI000000000001.xml"; mtime := 13;
     get_blocks := [["<"; "a"]%byte; ["/"; ">"]%byte] |}.

Definition job_valid (table : string) (dossier : option string) : Job :=
  {| xml_blob := ["<"; "a"; "/"; ">"]%byte; job_mtime := 13;
     job_base := "JORF"; job_table := table; job_dossier := dossier;
     job_text_cid := None; job_text_id := "JORFARTI000000000001";
     job_process_links := true |}.

(** Sample collaborators. *)
Definition sample_get_table (parts : list string) : option string :=
  Some "articles".
Definition no_table (parts : list string) : option string := None.
Definition sample_get_dossier (parts : list string) (base : string)
  : option string := None.

Definition entry_a : Entry :=
  {| pathname := "legi/a"; mtime := 1; get_blocks := [] |}.
Definition entry_b : Entry :=
  {| pathname := "legi/b"; mtime := 2; get_blocks := [] |}.
Definition entry_c : Entry :=
  {| pathname := "legi/c"; mtime := 3; get_blocks := [] |}.

(** The statistics [{add: 3, update: 1}] of the spec's merge example. *)
Definition sample_counts : gmap string Z := <["add" := 3]> (<["update" := 1]> ∅).

(** Contiguous ranges: [tiles from chunks to] says that the [start, end)
    ranges of [chunks], in order, are non-empty, begin at [from], each
    begin where the previous one ends, and end at [to]. *)
Fixpoint tiles (from : Z) (chunks : list (Z * Z)) (to : Z) : Prop :=
  match chunks with
  | [] => from = to
  | (chunk_start, chunk_end) :: chunks' =>
      chunk_start = from /\ chunk_start < chunk_end /\ tiles chunk_end chunks' to
  end.

Definition sample_connect_db (tr : trace nat) (db_url : string) : nat :=
  length tr.
Definition sample_process_xml (tr : trace nat) (job : Job)
  : outcome (gmap string Z * Z) := Ok (sample_counts, 2).
Definition sample_as_completed (batches : list (list Job))
  : list (list Job) := rev batches.

(** A [connect_db] whose handles are all new: none is the handle [0] that
    the caller holds. *)
Definition fresh_connect_db (tr : trace nat) (db_url : string) : nat :=
  S (length tr).

(** A suppression list file for the base [JORF], with two identifiers. *)
Definition entry_suppression : Entry :=
  {| pathname := "jorf/liste_suppression_jorf.dat"; mtime := 14;
     get_blocks :=
       [list_byte_of_string "JORFTEXT000000000001";
        [x0a; "J"; "O"; "R"; "F"; "A"; "R"; "T"; "I"; "2"; x0a]%byte] |}.

(** Five entries: with chunks of two entries the suppression list sits in
    the last chunk. *)
Definition sample_archive : list Entry :=
  [entry_directory; entry_valid; entry_disallowed; entry_valid;
   entry_suppression].

(** A file under a [LEGI] code folder whose name matches no table. *)
Definition entry_legi_short : Entry :=
  {| pathname := "legi/global/code_et_TNC_en_vigueur/foo.txt"; mtime := 15;
     get_blocks := [] |}.

(** A file directly under an unrecognized folder. *)
Definition entry_short : Entry :=
  {| pathname := "misc/readme.txt"; mtime := 16; get_blocks := [] |}.

(** Paths with one and with two leading segments before the category. *)
Definition entry_prefixed : Entry :=
  {| pathname := "20200101/jorf/global/article/JORFARTI000000000001.xml";
     mtime := 17; get_blocks := [["<"; "a"]%byte; ["/"; ">"]%byte] |}.
Definition entry_double_prefix : Entry :=
  {| pathname := "20200101/jorf/jorf/article/doc.xml"; mtime := 18;
     get_blocks := [] |}.

(** ** Vocabulary of the further properties *)

(** The sum, over a list of jobs, of what [report] says each job adds to
    the counter [key]. *)
Definition total_of (report : Job -> gmap string Z * Z) (key : string)
    (jobs : list Job) : Z :=
  foldr (fun job acc => count_of (report job).1 key + acc) 0 jobs.

Definition is_connect {DB} (ev : event DB) : bool :=
  match ev with EConnect _ _ => true | _ => false end.

Definition is_process_xml {DB} (ev : event DB) : bool :=
  match ev with EProcessXml _ => true | _ => false end.

(** A per-document processor that fails on the jobs of table [broken]. *)
Definition failing_process_xml (tr : trace nat) (job : Job)
  : outcome (gmap string Z * Z) :=
  if String.eqb (job_table job) "broken"
  then Raise (ExternalError "process_xml")
  else Ok (sample_counts, 2).

(** What [sample_process_xml] reports, as a function of the job. *)
Definition sample_report (job : Job) : gmap string Z * Z := (sample_counts, 2).

(** [string_forall p s]: every character of [s] satisfies [p]. *)
Fixpoint string_forall (p : ascii -> bool) (s : string) : bool :=
  match s with
  | EmptyString => true
  | String c s' => p c && string_forall p s'
  end.

(** The sum of all counters of a tally. *)
Definition tally_total (d : gmap string Z) : Z :=
  map_fold (fun _ n acc => n + acc) 0 d.

(** Entries the classifier passes over without job and without tally:
    directories and suppression list files. *)
Definition is_ignored (base : string) (entry : Entry) : bool :=
  match last_char (pathname entry) with
  | Ok c =>
      if Ascii.eqb c "/" then true
      else match last (split_on "/" (pathname entry)) with
           | Some name => String.eqb name (suppression_file base)
           | None => false
           end
  | Raise _ => false
  end.

(** Job lists for the executors. *)
Definition three_jobs : list Job :=
  [job_valid "articles" None; job_valid "sections" None;
   job_valid "textes" None].

Definition jobs_with_failure : list Job :=
  [job_valid "articles" None; job_valid "broken" None;
   job_valid "sections" None].

(** * Properties *)

(** ** Python primitives on examples *)

Example split_on_dir : split_on "/" "a/b/" = ["a"; "b"; ""].
Proof. reflexivity. Qed.

Example split_on_empty : split_on "/" "" = [""].
Proof. reflexivity. Qed.

Example split_ws_example :
  split_ws (String "010" " A1  B2" +:+ String "009" "C3 ") = ["A1"; "B2"; "C3"].
Proof. reflexivity. Qed.

Example strip_last4_example : strip_last4 "LEGIARTI1.xml" = "LEGIARTI1".
Proof. reflexivity. Qed.

Example lower_example : lower "LEGI" = "legi".
Proof. reflexivity. Qed.

(** ** The walker *)

(** The loop stops on [idx > chunk_end_idx], so from position [idx] it
    lets through the entries numbered [idx], ..., [chunk_end_idx]. *)
Lemma walk_entries_take (rest : list Entry) (idx chunk_end_idx : Z) :
  idx <= chunk_end_idx + 1 ->
  walk_entries rest idx chunk_end_idx
  = take (Z.to_nat (chunk_end_idx - idx + 1)) rest.
Proof.
  revert idx. induction rest as [|entry rest IH]; intros idx Hle; simpl.
  - by rewrite take_nil.
  - destruct (Z.gtb_spec idx chunk_end_idx) as [Hgt|Hngt].
    + replace (chunk_end_idx - idx + 1) with 0 by lia. reflexivity.
    + rewrite IH by lia.
      replace (Z.to_nat (chunk_end_idx - idx + 1))
        with (S (Z.to_nat (chunk_end_idx - (idx + 1) + 1))) by lia.
      reflexivity.
Qed.

(** C1 (code defect).  On an archive with more than [chunk_end_idx]
    entries and [0 <= chunk_start_idx <= chunk_end_idx], the walker skips
    the first [chunk_start_idx] entries and then yields
    [chunk_end_idx - chunk_start_idx + 1] entries, the last of which is
    the entry of index [chunk_end_idx]: one more than the half-open range
    of the claim. *)
Theorem iterate_archive_chunk_entries_includes_end
    (archive : list Entry) (chunk_start_idx chunk_end_idx : Z) :
  0 <= chunk_start_idx <= chunk_end_idx ->
  chunk_end_idx < Z.of_nat (length archive) ->
  let yielded :=
    iterate_archive_chunk_entries archive chunk_start_idx chunk_end_idx in
  yielded = take (Z.to_nat (chunk_end_idx - chunk_start_idx + 1))
                 (drop (Z.to_nat chunk_start_idx) archive)
  /\ Z.of_nat (length yielded) = chunk_end_idx - chunk_start_idx + 1
  /\ last yielded = archive !! Z.to_nat chunk_end_idx
  /\ is_Some (archive !! Z.to_nat chunk_end_idx).
Proof.
  intros Hse Hlen yielded.
  assert (Hy : yielded = take (Z.to_nat (chunk_end_idx - chunk_start_idx + 1))
                              (drop (Z.to_nat chunk_start_idx) archive)).
  { unfold yielded, iterate_archive_chunk_entries, consume.
    apply walk_entries_take. lia. }
  split; [exact Hy|].
  assert (Hl : length yielded
               = Z.to_nat (chunk_end_idx - chunk_start_idx + 1)).
  { rewrite Hy, length_take, length_drop. lia. }
  split; [lia|]. split.
  - rewrite last_lookup, Hl, Hy.
    rewrite lookup_take_lt by lia. rewrite lookup_drop. f_equal. lia.
  - apply lookup_lt_is_Some. lia.
Qed.

Lemma iterate_archive_chunk_entries_includes_end_witness :
  iterate_archive_chunk_entries [entry_a; entry_b; entry_c] 0 1
  = [entry_a; entry_b]
  /\ Z.of_nat (length (iterate_archive_chunk_entries
                         [entry_a; entry_b; entry_c] 0 1)) = 1 - 0 + 1.
Proof.
  pose proof (iterate_archive_chunk_entries_includes_end
                [entry_a; entry_b; entry_c] 0 1
                ltac:(lia) ltac:(simpl; lia)) as (H1 & H2 & _).
  split; [exact H1 | exact H2].
Defined.

(** ** Chunk construction *)

Lemma range_length (n : Z) : length (range n) = Z.to_nat n.
Proof. unfold range. by rewrite length_map, length_seq. Qed.

Lemma range_nonpos (n : Z) : n <= 0 -> range n = [].
Proof. intros H. unfold range. replace (Z.to_nat n) with O by lia. done. Qed.

(** C2 (code defect).  When the archive has fewer entries than one
    chunk, no full chunk exists, the list of full chunks is empty and
    reading its last element raises [IndexError]: no chunk list is
    built. *)
Theorem build_chunks_small_archive_raises (CHUNK_SIZE total : Z) :
  0 <= total < CHUNK_SIZE ->
  build_chunks CHUNK_SIZE total = Raise IndexError.
Proof.
  intros H. unfold build_chunks.
  destruct (Z.eqb_spec CHUNK_SIZE 0) as [->|_]; [lia|].
  rewrite Z.div_small by lia. reflexivity.
Qed.

Lemma build_chunks_small_archive_raises_witness :
  build_chunks source_CHUNK_SIZE 1 = Raise IndexError.
Proof.
  apply build_chunks_small_archive_raises.
  unfold source_CHUNK_SIZE. lia.
Defined.

(** The example of the spec, which has full chunks. *)
Example build_chunks_example :
  build_chunks source_CHUNK_SIZE 1200000
  = Ok [(0, 500000); (500000, 1000000); (1000000, 1200000)].
Proof. reflexivity. Qed.

Lemma tiles_app (from mid to : Z) (l1 l2 : list (Z * Z)) :
  tiles from l1 mid -> tiles mid l2 to -> tiles from (l1 ++ l2) to.
Proof.
  revert from. induction l1 as [|[s e] l1 IH]; simpl; intros from H1 H2.
  - by subst.
  - destruct H1 as (-> & Hlt & H1). eauto.
Qed.

Lemma tiles_full_chunks (C : Z) (n a : nat) :
  0 < C ->
  tiles (Z.of_nat a * C)
        (map (fun i => (i * C, (i + 1) * C)) (map Z.of_nat (seq a n)))
        (Z.of_nat (a + n) * C).
Proof.
  intros HC. revert a. induction n as [|n IH]; intros a; simpl.
  - f_equal. lia.
  - split; [done|]. split; [nia|].
    replace ((Z.of_nat a + 1) * C) with (Z.of_nat (S a) * C) by lia.
    replace (a + S n)%nat with (S a + n)%nat by lia. apply IH.
Qed.

Lemma last_full_chunks (C : Z) (n : nat) :
  last (map (fun i => (i * C, (i + 1) * C)) (map Z.of_nat (seq 0 (S n))))
  = Some (Z.of_nat n * C, (Z.of_nat n + 1) * C).
Proof.
  rewrite seq_S, !map_app. simpl. apply last_snoc.
Qed.

(** When at least one full chunk exists, the construction succeeds and the
    chunks tile [[0, total)]: full chunks of [CHUNK_SIZE] entries, then
    the remainder when there is one. *)
Lemma build_chunks_tiles (CHUNK_SIZE total : Z) :
  0 < CHUNK_SIZE <= total ->
  exists chunks,
    build_chunks CHUNK_SIZE total = Ok chunks
    /\ tiles 0 chunks total
    /\ chunks
       = map (fun i => (i * CHUNK_SIZE, (i + 1) * CHUNK_SIZE))
             (range (total / CHUNK_SIZE))
         ++ (if total mod CHUNK_SIZE >? 0
             then [(total / CHUNK_SIZE * CHUNK_SIZE, total)] else []).
Proof.
  intros [HC HT].
  assert (Hq : 1 <= total / CHUNK_SIZE).
  { apply Z.div_le_lower_bound; lia. }
  pose proof (Z.div_mod total CHUNK_SIZE ltac:(lia)) as Hdm.
  pose proof (Z.mod_pos_bound total CHUNK_SIZE HC) as Hm.
  eexists. split; [|split; [|reflexivity]].
  - unfold build_chunks. cbv zeta.
    destruct (Z.eqb_spec CHUNK_SIZE 0) as [?|_]; [lia|].
    unfold range.
    destruct (Z.to_nat (total / CHUNK_SIZE)) as [|n] eqn:Hn; [lia|].
    unfold index_last. rewrite last_full_chunks. simpl mbind. cbv beta iota.
    replace ((Z.of_nat n + 1) * CHUNK_SIZE)
      with (total / CHUNK_SIZE * CHUNK_SIZE) by (f_equal; lia).
    replace (total / CHUNK_SIZE * CHUNK_SIZE + total mod CHUNK_SIZE)
      with total by lia.
    reflexivity.
  - eapply tiles_app.
    + unfold range.
      apply (tiles_full_chunks CHUNK_SIZE (Z.to_nat (total / CHUNK_SIZE)) 0 HC).
    + destruct (Z.gtb_spec (total mod CHUNK_SIZE) 0); simpl; nia.
Qed.

(** ** Statistics merging *)

Lemma count_of_incr (d : gmap string Z) (key key' : string) (n : Z) :
  count_of (incr d key n) key'
  = if decide (key = key') then count_of d key + n else count_of d key'.
Proof.
  unfold count_of, incr. rewrite lookup_insert. by case_decide; subst.
Qed.

(** The dictionary part of the merge: after the call, every counter of
    the accumulator has grown by the sub-count of its key. *)
Lemma merge_counts_count_of (sub_counts : gmap string Z) (sub_skipped : Z)
    (counts : gmap string Z) (skipped : Z) (key : string) :
  count_of (merge_counts sub_counts sub_skipped counts skipped) key
  = count_of counts key + count_of sub_counts key.
Proof.
  unfold merge_counts. cbv zeta.
  apply (map_fold_weak_ind
           (fun r m => count_of r key = count_of counts key + count_of m key)).
  - unfold count_of at 3. rewrite lookup_empty. simpl. lia.
  - intros i x m r Hi IH. rewrite count_of_incr.
    unfold count_of at 4. rewrite lookup_insert.
    case_decide; subst; simpl.
    + rewrite IH. unfold count_of at 2. rewrite Hi. simpl. lia.
    + exact IH.
Qed.

(** Counters do not depend on the order in which sub-statistics arrive. *)
Lemma merge_counts_order (a b counts : gmap string Z) (sa sb s s' : Z)
    (key : string) :
  count_of (merge_counts a sa (merge_counts b sb counts s) s') key
  = count_of (merge_counts b sb (merge_counts a sa counts s) s') key.
Proof. rewrite !merge_counts_count_of. lia. Qed.

(** The skip total a collecting loop returns is the one it started with,
    whatever the batches report. *)
Lemma collect_futures_skipped
    (results : list (outcome (gmap string Z * Z)))
    (counts counts' : gmap string Z) (skipped skipped' : Z) :
  collect_futures results counts skipped = Ok (counts', skipped') ->
  skipped' = skipped.
Proof.
  revert counts. induction results as [|[[c s]|e] results IH]; simpl;
    intros counts H.
  - by inversion H.
  - eauto.
  - discriminate.
Qed.

(** C3 (code defect).  The spec's example, run through the loop that
    merges completed batches: two batches each reporting
    [{add: 3, update: 1}] and [skipped = 2].  The counters add up to
    [{add: 6, update: 2}]; the skip total the caller gets back is [0], not
    [4], because [merge_counts] only rebinds its own [skipped]. *)
Theorem collect_futures_example_skipped_lost :
  collect_futures [Ok (sample_counts, 2); Ok (sample_counts, 2)] ∅ 0
  = Ok (<["add" := 6]> (<["update" := 2]> ∅), 0).
Proof. vm_compute. reflexivity. Qed.

(** ** The classifier *)

Section ClassifierProperties.

Variable get_table : list string -> option string.
Variable get_dossier : list string -> string -> option string.

Abbreviation classify :=
  (get_process_xml_job_args_for_entry get_table get_dossier).
Abbreviation route := (route_parts get_table get_dossier).

(** Unfolding the sequencing of computations that may raise. *)
Ltac step_outcome :=
  unfold mbind, outcome_bind, mret, outcome_ret in *; cbv beta iota in *.

(** A call that returns leaves the suppression list extended by exactly
    the identifiers of the entry. *)
Lemma classify_liste_suppression entry base liste unknown process_links
    job liste' unknown' :
  classify entry base liste unknown process_links = Ok (job, liste', unknown') ->
  liste' = liste ++ suppression_ids_of_entry base entry.
Proof.
  unfold get_process_xml_job_args_for_entry, suppression_ids_of_entry.
  cbv zeta. step_outcome.
  destruct (last_char (pathname entry)) as [c|]; [|discriminate].
  destruct (Ascii.eqb c "/").
  { intros [= _ <- _]. by rewrite app_nil_r. }
  destruct (index_last (split_on "/" (pathname entry))) as [name|];
    [|discriminate].
  destruct (String.eqb name (suppression_file base)).
  { destruct (decode_ascii _); [|discriminate]. by intros [= _ <- _]. }
  destruct (strip_base_prefix _ _ _) as [[path parts]|]; [|discriminate].
  destruct (route_parts _ _ _ _ _ _ _) as [[j u]|]; [|discriminate].
  intros [= _ <- _]. by rewrite app_nil_r.
Qed.

Lemma collect_job_args_liste_suppression entries base liste unknown
    process_links args liste' unknown' :
  collect_job_args get_table get_dossier entries base liste unknown
    process_links = Ok (args, liste', unknown') ->
  liste' = liste ++ flat_map (suppression_ids_of_entry base) entries.
Proof.
  revert liste unknown args liste' unknown'.
  induction entries as [|entry entries IH]; simpl;
    intros liste unknown args liste' unknown'.
  - intros [= _ <- _]. by rewrite app_nil_r.
  - step_outcome.
    destruct (classify entry base liste unknown process_links)
      as [[[a l1] u1]|] eqn:Hc; [|discriminate].
    apply classify_liste_suppression in Hc. subst l1.
    destruct (collect_job_args _ _ entries _ _ _ _) as [[[args2 l2] u2]|] eqn:Hr;
      [|discriminate].
    apply IH in Hr. subst l2. intros [= _ <- _]. by rewrite <- app_assoc.
Qed.

(** *** Short paths *)

Lemma last_char_raises (s : string) (e : exn) :
  last_char s = Raise e -> e = IndexError.
Proof.
  induction s as [|c s IH]; simpl.
  - by intros [= <-].
  - destruct s; [discriminate | exact IH].
Qed.

Lemma split_on_not_nil (sep : ascii) (s : string) : split_on sep s <> [].
Proof.
  induction s as [|c s IH]; simpl; [done|].
  destruct (Ascii.eqb c sep); [done|]. by destruct (split_on sep s).
Qed.

Lemma index_last_split_on (sep : ascii) (s : string) :
  exists name, index_last (split_on sep s) = Ok name
               /\ last (split_on sep s) = Some name.
Proof.
  unfold index_last. destruct (last (split_on sep s)) as [name|] eqn:E.
  - eauto.
  - apply last_None in E. by apply split_on_not_nil in E.
Qed.

Lemma index_short {A} (l : list A) (i : nat) :
  (length l <= i)%nat -> index l i = Raise IndexError.
Proof. intros H. unfold index. by rewrite lookup_ge_None_2. Qed.

(** With fewer than three segments every way through the family test
    ends on a read of [parts[2]]. *)
Lemma route_parts_short_raises entry parts base unknown process_links :
  (length parts < 3)%nat ->
  route entry parts base unknown process_links = Raise IndexError.
Proof.
  intros Hlen. unfold route_parts, unknown_folder_test, or_else, and_then.
  rewrite (index_short parts 2) by lia.
  destruct parts as [|p0 parts]; [reflexivity|].
  change (index (p0 :: parts) 0) with (Ok p0). step_outcome.
  unfold str_in. simpl existsb.
  destruct (String.eqb p0 "legi"); [reflexivity|].
  destruct (String.eqb p0 "jorf"); [reflexivity|].
  destruct (String.eqb p0 "kali"); reflexivity.
Qed.

(** C9.  An entry that is neither a directory nor a suppression list and
    whose path, after the optional removal of the leading segment, has
    fewer than three segments makes the classifier raise [IndexError]:
    no routing outcome is returned. *)
Theorem classify_short_path_raises entry base liste unknown process_links :
  last_char (pathname entry) <> Ok "/"%char ->
  last (split_on "/" (pathname entry)) <> Some (suppression_file base) ->
  (length (effective_parts base (pathname entry)) < 3)%nat ->
  classify entry base liste unknown process_links = Raise IndexError.
Proof.
  intros Hdir Hname Hlen.
  unfold get_process_xml_job_args_for_entry. cbv zeta. step_outcome.
  destruct (last_char (pathname entry)) as [c|e] eqn:Hc.
  2: { by apply last_char_raises in Hc as ->. }
  destruct (Ascii.eqb_spec c "/") as [->|_]; [done|].
  destruct (index_last_split_on "/" (pathname entry)) as (name & -> & Hlast).
  destruct (String.eqb_spec name (suppression_file base)) as [->|_];
    [done|].
  unfold strip_base_prefix, effective_parts in *. cbv zeta in Hlen.
  step_outcome. unfold index at 1.
  destruct (split_on "/" (pathname entry) !! 1%nat) as [p1|]; [|reflexivity].
  destruct (String.eqb p1 (lower base)).
  - destruct (split_on "/" (pathname entry)) as [|p0 parts]; [done|].
    unfold index. simpl lookup. cbv beta iota.
    change (drop 1 (p0 :: parts)) with parts in *.
    by rewrite route_parts_short_raises.
  - by rewrite route_parts_short_raises.
Qed.

(** *** Routing *)

Lemma last_char_raise_empty (s : string) (e : exn) :
  last_char s = Raise e -> s = "".
Proof.
  induction s as [|c s IH]; [done|]. simpl.
  destruct s as [|c' s']; [discriminate|]. intros H. apply IH in H.
  discriminate.
Qed.

(** For an entry that is neither a directory nor a suppression list, the
    classifier is [route_parts] on the effective segments. *)
Lemma classify_routes entry base liste unknown process_links :
  last_char (pathname entry) <> Ok "/"%char ->
  last (split_on "/" (pathname entry)) <> Some (suppression_file base) ->
  classify entry base liste unknown process_links
  = routed liste (route entry (effective_parts base (pathname entry)) base
                    unknown process_links).
Proof.
  intros Hdir Hname.
  unfold get_process_xml_job_args_for_entry, routed. cbv zeta.
  destruct (last_char (pathname entry)) as [c|e] eqn:Hc.
  2: { pose proof (last_char_raises _ _ Hc) as ->.
       apply last_char_raise_empty in Hc. rewrite Hc.
       by rewrite route_parts_short_raises by (simpl; lia). }
  step_outcome.
  destruct (Ascii.eqb_spec c "/") as [->|_]; [done|].
  destruct (index_last_split_on "/" (pathname entry)) as (name & -> & Hlast).
  destruct (String.eqb_spec name (suppression_file base)) as [->|_];
    [done|].
  unfold strip_base_prefix, effective_parts. cbv zeta.
  step_outcome. unfold index at 1.
  destruct (split_on "/" (pathname entry) !! 1%nat) as [p1|] eqn:Hp1.
  - destruct (String.eqb p1 (lower base)); [|reflexivity].
    destruct (split_on "/" (pathname entry)) as [|p0 parts]; [done|].
    reflexivity.
  - apply lookup_ge_None_1 in Hp1.
    by rewrite route_parts_short_raises by lia.
Qed.

Lemma incr_count_of (unknown : gmap string Z) (key : string) :
  count_of (incr unknown key 1) key = count_of unknown key + 1
  /\ forall key', key' <> key ->
       count_of (incr unknown key 1) key' = count_of unknown key'.
Proof.
  split; [|intros key' Hne]; rewrite count_of_incr; case_decide; congruence.
Qed.

(** The value of the test of lines 101-106 when the first and third
    segments exist. *)
Lemma unknown_folder_test_value (parts : list string) (p0 p2 : string) :
  parts !! 0%nat = Some p0 -> parts !! 2%nat = Some p2 ->
  unknown_folder_test parts
  = Ok (negb (str_in p0 ["legi"; "jorf"; "kali"])
        || (String.eqb p0 "legi" && negb (startswith "code_et_TNC_" p2))
        || (String.eqb p0 "jorf"
            && negb (str_in p2 ["article"; "section_ta"; "texte"]))
        || (String.eqb p0 "kali"
            && negb (str_in p2 ["article"; "section_ta"; "texte";
                                "conteneur"]))).
Proof.
  intros H0 H2. unfold unknown_folder_test, or_else, and_then, index.
  rewrite H0, H2. step_outcome.
  destruct (negb (str_in p0 _)); [reflexivity|].
  destruct (String.eqb p0 "legi"), (String.eqb p0 "jorf"),
    (String.eqb p0 "kali"); simpl;
    repeat match goal with
           | |- context [if ?b then _ else _] => destruct b; simpl
           end; reflexivity.
Qed.

Lemma route_parts_unknown_folder entry parts base unknown process_links p0 p2 :
  parts !! 0%nat = Some p0 -> parts !! 2%nat = Some p2 ->
  unknown_family p0 \/ disallowed_category p0 p2 ->
  route entry parts base unknown process_links
  = Ok (None, incr unknown p2 1).
Proof.
  intros H0 H2 Hfail. unfold route_parts.
  rewrite (unknown_folder_test_value parts p0 p2 H0 H2).
  assert (Htest : negb (str_in p0 ["legi"; "jorf"; "kali"])
        || (String.eqb p0 "legi" && negb (startswith "code_et_TNC_" p2))
        || (String.eqb p0 "jorf"
            && negb (str_in p2 ["article"; "section_ta"; "texte"]))
        || (String.eqb p0 "kali"
            && negb (str_in p2 ["article"; "section_ta"; "texte";
                                "conteneur"])) = true).
  { destruct Hfail as [Hf|[[-> Hc]|[[-> Hc]|[-> Hc]]]].
    - unfold unknown_family in Hf. by rewrite Hf.
    - rewrite Hc. reflexivity.
    - rewrite Hc. reflexivity.
    - rewrite Hc. reflexivity. }
  rewrite Htest. step_outcome. unfold index. by rewrite H2.
Qed.

(** C6 (amended).  For an entry that is neither a directory nor a
    suppression list, whose path (after the optional removal of the
    leading segment) has a third segment and fails the checks, on the
    family of the first segment or on the category in the third, the
    classifier returns no job and adds one to the tally under the third
    segment, in both cases; no other counter changes.  The archive of the
    spec's example gives the tally [{misc: 1, disallowed_category: 1}]
    ([misc] being the third segment of the entry under the unrecognized
    folder), one job and no suppression identifier. *)
Theorem classify_unknown_folder_tally :
  (forall entry base liste unknown process_links p0 p2,
      last_char (pathname entry) <> Ok "/"%char ->
      last (split_on "/" (pathname entry)) <> Some (suppression_file base) ->
      effective_parts base (pathname entry) !! 0%nat = Some p0 ->
      effective_parts base (pathname entry) !! 2%nat = Some p2 ->
      unknown_family p0 \/ disallowed_category p0 p2 ->
      classify entry base liste unknown process_links
      = Ok (None, liste, incr unknown p2 1)
      /\ count_of (incr unknown p2 1) p2 = count_of unknown p2 + 1
      /\ forall key, key <> p2 ->
           count_of (incr unknown p2 1) key = count_of unknown key)
  /\ (forall table,
        get_table ["jorf"; "global"; "article"; "JORFARTI000000000001.xml"]
        = Some table ->
        collect_job_args get_table get_dossier
          [entry_directory; entry_unrecognized; entry_disallowed; entry_valid]
          "JORF" [] ∅ true
        = Ok ([None; None; None;
               Some (job_valid table
                       (get_dossier ["jorf"; "global"; "article";
                                     "JORFARTI000000000001.xml"] "JORF"))],
              [],
              <["misc" := 1]> (<["disallowed_category" := 1]> ∅))).
Proof.
  split.
  - intros entry base liste unknown process_links p0 p2 Hdir Hname H0 H2 Hfail.
    rewrite (classify_routes _ _ _ _ _ Hdir Hname).
    rewrite (route_parts_unknown_folder _ _ _ _ _ p0 p2 H0 H2 Hfail).
    split; [reflexivity|]. apply incr_count_of.
  - intros table Htable.
    simpl collect_job_args. step_outcome.
    rewrite classify_routes by (vm_compute; congruence).
    change (effective_parts "JORF" (pathname entry_valid))
      with ["jorf"; "global"; "article"; "JORFARTI000000000001.xml"].
    unfold route_parts, routed.
    rewrite (unknown_folder_test_value _ "jorf" "article") by reflexivity.
    rewrite Htable. vm_compute. reflexivity.
Qed.

(** *** Entries without a table *)

Lemma route_parts_no_table entry parts base unknown process_links name :
  unknown_folder_test parts = Ok false ->
  get_table parts = None ->
  last parts = Some name ->
  String.eqb base "LEGI" = false \/ (12 <= length parts)%nat ->
  route entry parts base unknown process_links
  = Ok (None, incr unknown (strip_last4 name) 1).
Proof.
  intros Htest Htable Hlast Hcid. unfold route_parts.
  rewrite Htest, Htable. unfold index_last. rewrite Hlast. step_outcome.
  destruct (String.eqb base "LEGI"); [|reflexivity].
  destruct Hcid as [?|Hlen]; [discriminate|].
  unfold index. destruct (lookup_lt_is_Some_2 parts 11) as [p11 ->]; [lia|].
  reflexivity.
Qed.

(** When the path passes the checks and no table matches, the entry is
    dropped and tallied under its text identifier, provided the read of
    [parts[11]] that precedes the test succeeds or is not made. *)
Lemma classify_no_table_tally entry base liste unknown process_links name :
  last_char (pathname entry) <> Ok "/"%char ->
  last (split_on "/" (pathname entry)) <> Some (suppression_file base) ->
  unknown_folder_test (effective_parts base (pathname entry)) = Ok false ->
  get_table (effective_parts base (pathname entry)) = None ->
  last (effective_parts base (pathname entry)) = Some name ->
  String.eqb base "LEGI" = false
  \/ (12 <= length (effective_parts base (pathname entry)))%nat ->
  classify entry base liste unknown process_links
  = Ok (None, liste, incr unknown (strip_last4 name) 1).
Proof.
  intros Hdir Hname Htest Htable Hlast Hcid.
  rewrite (classify_routes _ _ _ _ _ Hdir Hname).
  by rewrite (route_parts_no_table _ _ _ _ _ name Htest Htable Hlast Hcid).
Qed.

(** C7 (code defect).  With the base [LEGI], the container identifier
    [parts[11]] is read before the table is tested: an entry that passes
    the family and category checks, has no table and fewer than twelve
    segments makes the classifier raise [IndexError] instead of being
    tallied under its text identifier and dropped. *)
Theorem classify_no_table_legi_short_path_raises
    entry liste unknown process_links :
  last_char (pathname entry) <> Ok "/"%char ->
  last (split_on "/" (pathname entry)) <> Some (suppression_file "LEGI") ->
  unknown_folder_test (effective_parts "LEGI" (pathname entry)) = Ok false ->
  get_table (effective_parts "LEGI" (pathname entry)) = None ->
  (length (effective_parts "LEGI" (pathname entry)) < 12)%nat ->
  classify entry "LEGI" liste unknown process_links = Raise IndexError.
Proof.
  intros Hdir Hname Htest Htable Hlen.
  rewrite (classify_routes _ _ _ _ _ Hdir Hname).
  unfold route_parts, routed. rewrite Htest. step_outcome.
  change (String.eqb "LEGI" "LEGI") with true. cbv beta iota.
  by rewrite index_short by lia.
Qed.

(** *** The base prefix *)

Lemma lower_empty (s : string) : lower s = "" -> s = "".
Proof. by destruct s. Qed.

(** Removing [len(parts[0]) + 1] characters removes the first segment. *)
Lemma split_on_second (s p0 p1 : string) (more : list string) :
  split_on "/" s = p0 :: p1 :: more ->
  split_on "/" (drop_chars (String.length p0 + 1) s) = p1 :: more
  /\ (drop_chars (String.length p0 + 1) s <> "" ->
      last_char s = last_char (drop_chars (String.length p0 + 1) s)).
Proof.
  revert p0. induction s as [|c s IH]; intros p0; simpl; [discriminate|].
  destruct (Ascii.eqb c "/").
  - intros [= <- Hs]. simpl. split; [done|]. intros Hne.
    by destruct s.
  - destruct (split_on "/" s) as [|seg segs] eqn:Hs; [discriminate|].
    intros [= <- ->]. simpl. destruct (IH seg eq_refl) as [H1 H2].
    split; [done|]. intros Hne. rewrite <- (H2 Hne).
    destruct s; [discriminate|done].
Qed.

Lemma route_parts_with_pathname entry path parts base unknown process_links :
  route (with_pathname entry path) parts base unknown process_links
  = route entry parts base unknown process_links.
Proof. reflexivity. Qed.

(** C10 (amended).  When the second segment of a path is the lower-cased
    base, the classifier drops the first segment before the family,
    category, table and dossier checks, which run on the segments of the
    remainder of the path: this holds for every such path.  The entry is
    moreover classified exactly as the entry whose path is the remainder,
    provided the base is not empty and the remainder does not itself
    carry the base as its second segment (only one leading segment is
    ever removed).  For every other path the segments are used as they
    are. *)
Theorem classify_base_prefix entry base liste unknown process_links :
  let path := pathname entry in
  let parts := split_on "/" path in
  (parts !! 1%nat = Some (lower base) ->
   (forall p0,
       parts !! 0%nat = Some p0 ->
       split_on "/" (drop_chars (String.length p0 + 1) path) = drop 1 parts)
   /\ (last_char path <> Ok "/"%char ->
       last parts <> Some (suppression_file base) ->
       classify entry base liste unknown process_links
       = routed liste (route entry (drop 1 parts) base unknown
                         process_links)))
  /\ (forall p0,
      base <> "" ->
      parts !! 0%nat = Some p0 ->
      parts !! 1%nat = Some (lower base) ->
      parts !! 2%nat <> Some (lower base) ->
      let remainder := drop_chars (String.length p0 + 1) path in
      split_on "/" remainder = drop 1 parts
      /\ classify entry base liste unknown process_links
         = classify (with_pathname entry remainder) base liste unknown
             process_links
      /\ (last_char path <> Ok "/"%char ->
          last parts <> Some (suppression_file base) ->
          classify entry base liste unknown process_links
          = routed liste (route entry (drop 1 parts) base unknown
                            process_links)))
  /\ (parts !! 1%nat <> Some (lower base) ->
      last_char path <> Ok "/"%char ->
      last parts <> Some (suppression_file base) ->
      classify entry base liste unknown process_links
      = routed liste (route entry parts base unknown process_links)).
Proof.
  intros path parts. split; [|split].
  - intros H1. split.
    + intros p0 H0.
      destruct parts as [|q0 [|q1 more]] eqn:Hparts; try discriminate.
      injection H0 as ->.
      by destruct (split_on_second path p0 q1 more Hparts) as [-> _].
    + intros Hdir Hname. rewrite (classify_routes _ _ _ _ _ Hdir Hname).
      unfold effective_parts. fold path parts. cbv zeta.
      by rewrite H1, String.eqb_refl.
  - intros p0 Hbase H0 H1 H2 remainder.
    assert (Hroutes : last_char path <> Ok "/"%char ->
              last parts <> Some (suppression_file base) ->
              classify entry base liste unknown process_links
              = routed liste (route entry (drop 1 parts) base unknown
                                process_links)).
    { intros Hdir Hname. rewrite (classify_routes _ _ _ _ _ Hdir Hname).
      unfold effective_parts. fold path parts. cbv zeta.
      by rewrite H1, String.eqb_refl. }
    destruct parts as [|q0 [|q1 more]] eqn:Hparts; try discriminate.
    injection H0 as ->. injection H1 as ->.
    destruct (split_on_second path p0 (lower base) more Hparts)
      as [Hsplit Hlast].
    fold remainder in Hsplit, Hlast.
    assert (Hne : remainder <> "").
    { intros Heq. rewrite Heq in Hsplit. simpl in Hsplit.
      injection Hsplit as Hl _. symmetry in Hl.
      by apply lower_empty in Hl. }
    specialize (Hlast Hne).
    split; [exact Hsplit|]. split; [|exact Hroutes].
    unfold get_process_xml_job_args_for_entry. cbv zeta.
    simpl pathname. simpl get_blocks. fold path remainder.
    rewrite <- Hlast, Hsplit. fold parts. rewrite Hparts.
    unfold index_last.
    change (last (p0 :: lower base :: more))
      with (last (lower base :: more)).
    step_outcome.
    destruct (last_char path) as [c|e]; [|reflexivity].
    destruct (Ascii.eqb c "/"); [reflexivity|].
    destruct (last (lower base :: more)) as [name|]; [|reflexivity].
    destruct (String.eqb name (suppression_file base)); [reflexivity|].
    unfold strip_base_prefix, index. simpl lookup. step_outcome.
    rewrite String.eqb_refl.
    change (drop 1 (p0 :: lower base :: more)) with (lower base :: more).
    destruct more as [|p2 more'].
    + by rewrite route_parts_short_raises by (simpl; lia).
    + simpl lookup. cbv beta iota.
      destruct (String.eqb_spec p2 (lower base)) as [->|_]; [done|].
      reflexivity.
  - intros H1 Hdir Hname.
    rewrite (classify_routes _ _ _ _ _ Hdir Hname).
    unfold effective_parts. fold path parts. cbv zeta.
    destruct (parts !! 1%nat) as [p1|]; [|done].
    destruct (String.eqb_spec p1 (lower base)) as [->|]; [done|done].
Qed.

End ClassifierProperties.

(** ** Traces of the executors *)

Section ImporterProperties.

Context {DB : Type}.
Variable PROCESS_XML_JOBS_BATCH_SIZE : Z.
Variable MAX_PROCESSES : option Z.
Variable CHUNK_SIZE : Z.
Variable get_table : list string -> option string.
Variable get_dossier : list string -> string -> option string.
Variable connect_db : trace DB -> string -> DB.
Variable process_xml : trace DB -> Job -> outcome (gmap string Z * Z).
Variable as_completed : list (list Job) -> list (list Job).
Variable stored_base : option string.

Abbreviation process_xml_jobs_loop := (process_xml_jobs_loop process_xml).
Abbreviation process_xml_jobs_sync := (process_xml_jobs_sync process_xml).
Abbreviation process_xml_jobs_batch :=
  (process_xml_jobs_batch connect_db process_xml).
Abbreviation run_futures := (run_futures connect_db process_xml).
Abbreviation process_xml_jobs_in_parallel :=
  (process_xml_jobs_in_parallel PROCESS_XML_JOBS_BATCH_SIZE MAX_PROCESSES
     connect_db process_xml as_completed).
Abbreviation dispatch_jobs :=
  (dispatch_jobs PROCESS_XML_JOBS_BATCH_SIZE MAX_PROCESSES connect_db
     process_xml as_completed).
Abbreviation use_process_pool :=
  (use_process_pool PROCESS_XML_JOBS_BATCH_SIZE MAX_PROCESSES).

Lemma emits_ret {A} (P : event DB -> bool) (a : A) :
  emits P (mret a : M A).
Proof. intros tr. exists []. split; [by rewrite app_nil_r | done]. Qed.

Lemma emits_lift {A} (P : event DB -> bool) (o : outcome A) :
  emits P (lift o).
Proof. intros tr. exists []. split; [by rewrite app_nil_r | done]. Qed.

Lemma emits_emit (P : event DB -> bool) (ev : event DB) :
  P ev = true -> emits P (emit ev).
Proof. intros H tr. exists [ev]. simpl. by rewrite H. Qed.

Lemma emits_bind {A B} (P : event DB -> bool) (m : M A) (k : A -> M B) :
  emits P m -> (forall a, emits P (k a)) -> emits P (m ≫= k).
Proof.
  intros Hm Hk tr. destruct (Hm tr) as (d & Hd & HP).
  unfold mbind, M_bind. destruct (m tr) as [tr1 [a|e]]; simpl in *; subst.
  - destruct (Hk a (tr ++ d)) as (d' & Hd' & HP').
    exists (d ++ d'). rewrite Hd', app_assoc, forallb_app, HP, HP'. done.
  - eauto.
Qed.

Lemma emits_call_process_xml job :
  emits is_job_event (call_process_xml process_xml job).
Proof. intros tr. by exists [EProcessXml job]. Qed.

Lemma emits_call_connect_db db_url :
  emits is_job_event (call_connect_db connect_db db_url).
Proof. intros tr. by eexists [EConnect db_url _]. Qed.

Lemma emits_process_xml_jobs_loop jobs db commit counts skipped :
  emits is_job_event (process_xml_jobs_loop jobs db commit counts skipped).
Proof.
  revert counts. induction jobs as [|job jobs IH]; intros counts; simpl.
  - apply emits_ret.
  - apply emits_bind; [apply emits_call_process_xml|]. intros [c s].
    apply emits_bind; [|intros _; apply IH].
    destruct commit; [by apply emits_emit | apply emits_ret].
Qed.

Lemma emits_process_xml_jobs_batch batch db_url :
  emits is_job_event (process_xml_jobs_batch batch db_url).
Proof.
  unfold process_xml_jobs_batch.
  apply emits_bind; [apply emits_call_connect_db|]. intros db.
  apply emits_bind; [by apply emits_emit|]. intros _.
  apply emits_bind; [apply emits_process_xml_jobs_loop|]. intros [c s].
  apply emits_bind; [by apply emits_emit|]. intros _. apply emits_ret.
Qed.

Lemma run_futures_emits batches db_url tr :
  exists d, (run_futures batches db_url tr).1 = tr ++ d
            /\ forallb is_job_event d = true.
Proof.
  revert tr. induction batches as [|batch batches IH]; intros tr; simpl.
  - exists []. by rewrite app_nil_r.
  - destruct (emits_process_xml_jobs_batch batch db_url tr) as (d & Hd & HP).
    destruct (process_xml_jobs_batch batch db_url tr) as [tr1 r].
    simpl in Hd. subst tr1.
    destruct (IH (tr ++ d)) as (d' & Hd' & HP').
    destruct (run_futures batches db_url (tr ++ d)) as [tr2 rs].
    simpl in *. subst tr2. exists (d ++ d').
    by rewrite app_assoc, forallb_app, HP, HP'.
Qed.

Lemma emits_process_xml_jobs_in_parallel jobs db_url :
  emits is_job_event (process_xml_jobs_in_parallel jobs db_url).
Proof.
  unfold process_xml_jobs_in_parallel. cbv zeta.
  apply emits_bind; [apply emits_lift|]. intros batches.
  apply emits_bind; [apply emits_lift|]. intros _.
  apply emits_bind; [|intros rs; apply emits_lift].
  intros tr.
  destruct (run_futures_emits (as_completed batches) db_url tr)
    as (d & Hd & HP).
  destruct (run_futures (as_completed batches) db_url tr) as [tr' rs].
  eauto.
Qed.

Lemma emits_dispatch_jobs jobs db db_url :
  emits is_job_event (dispatch_jobs jobs db db_url).
Proof.
  unfold dispatch_jobs. destruct (use_process_pool _).
  - apply emits_process_xml_jobs_in_parallel.
  - apply emits_process_xml_jobs_loop.
Qed.

(** ** Dispatch policy *)

Lemma use_process_pool_false (n : Z) :
  use_process_pool n = false
  <-> MAX_PROCESSES = Some 1 \/ n <= 10 * PROCESS_XML_JOBS_BATCH_SIZE.
Proof.
  unfold use_process_pool.
  rewrite andb_false_iff, negb_false_iff, bool_decide_eq_true.
  destruct (Z.gtb_spec n (10 * PROCESS_XML_JOBS_BATCH_SIZE)); split;
    intros [Hcase|Hcase]; auto; try discriminate; lia.
Qed.

(** C5.  A chunk's job list goes to the sequential executor exactly when
    the worker concurrency is [1] or the list has at most ten batch sizes
    of jobs, and to the pool otherwise.  With batch size 1000 and a
    concurrency other than [1], 10000 jobs run sequentially and 10001 in
    the pool. *)
Theorem dispatch_jobs_policy (jobs : list Job) (db : DB) (db_url : string) :
  let n := Z.of_nat (length jobs) in
  (MAX_PROCESSES = Some 1 \/ n <= 10 * PROCESS_XML_JOBS_BATCH_SIZE ->
   dispatch_jobs jobs db db_url = process_xml_jobs_sync jobs true db true)
  /\ (MAX_PROCESSES <> Some 1 /\ n > 10 * PROCESS_XML_JOBS_BATCH_SIZE ->
      dispatch_jobs jobs db db_url = process_xml_jobs_in_parallel jobs db_url)
  /\ (PROCESS_XML_JOBS_BATCH_SIZE = source_PROCESS_XML_JOBS_BATCH_SIZE ->
      MAX_PROCESSES <> Some 1 ->
      (n = 10000 ->
       dispatch_jobs jobs db db_url = process_xml_jobs_sync jobs true db true)
      /\ (n = 10001 ->
          dispatch_jobs jobs db db_url
          = process_xml_jobs_in_parallel jobs db_url)).
Proof.
  intros n.
  assert (Hseq : MAX_PROCESSES = Some 1
                 \/ n <= 10 * PROCESS_XML_JOBS_BATCH_SIZE ->
                 dispatch_jobs jobs db db_url
                 = process_xml_jobs_sync jobs true db true).
  { intros H. apply use_process_pool_false in H.
    unfold dispatch_jobs. fold n. by rewrite H. }
  assert (Hpar : MAX_PROCESSES <> Some 1
                 /\ n > 10 * PROCESS_XML_JOBS_BATCH_SIZE ->
                 dispatch_jobs jobs db db_url
                 = process_xml_jobs_in_parallel jobs db_url).
  { intros [Hm Hn]. unfold dispatch_jobs. fold n.
    destruct (use_process_pool n) eqn:E; [done|].
    apply use_process_pool_false in E as [?|?]; [done|lia]. }
  split; [exact Hseq|]. split; [exact Hpar|].
  unfold source_PROCESS_XML_JOBS_BATCH_SIZE. intros HB Hm. split; intros Hn.
  - apply Hseq. right. lia.
  - apply Hpar. split; [done|lia].
Qed.

(** ** Commits *)

Lemma process_xml_jobs_loop_trace jobs db commit counts skipped tr :
  match process_xml_jobs_loop jobs db commit counts skipped tr with
  | (tr', Ok _) => tr' = tr ++ flat_map (job_events db commit) jobs
  | (tr', Raise _) =>
      exists done job rest,
        jobs = done ++ job :: rest
        /\ tr' = tr ++ flat_map (job_events db commit) done ++ [EProcessXml job]
  end.
Proof.
  revert counts tr. induction jobs as [|job jobs IH]; intros counts tr.
  - simpl. by rewrite app_nil_r.
  - simpl. unfold mbind at 1, M_bind at 1, call_process_xml.
    destruct (process_xml tr job) as [[xml_counts xml_skipped]|e].
    + unfold mbind at 1, M_bind at 1.
      set (counts' := merge_counts xml_counts xml_skipped counts skipped).
      destruct commit; simpl.
      * specialize (IH counts' ((tr ++ [EProcessXml job]) ++ [ECommit db])).
        destruct (process_xml_jobs_loop jobs db true counts' skipped _)
          as [tr' [r|e]].
        -- rewrite IH, <- !app_assoc. reflexivity.
        -- destruct IH as (done & j & rest & -> & ->).
           exists (job :: done), j, rest. simpl.
           rewrite <- !app_assoc. done.
      * specialize (IH counts' (tr ++ [EProcessXml job])).
        destruct (process_xml_jobs_loop jobs db false counts' skipped _)
          as [tr' [r|e]].
        -- rewrite IH, <- !app_assoc. reflexivity.
        -- destruct IH as (done & j & rest & -> & ->).
           exists (job :: done), j, rest. simpl.
           rewrite <- !app_assoc. done.
    + exists [], job, jobs. done.
Qed.

Lemma flat_map_job_events_no_commit (db : DB) (jobs : list Job) :
  flat_map (job_events db false) jobs = map EProcessXml jobs.
Proof. induction jobs; simpl; congruence. Qed.

Lemma count_map_process_xml (jobs : list Job) :
  count is_commit (map (@EProcessXml DB) jobs) = 0%nat.
Proof. unfold count. induction jobs; simpl; auto. Qed.

Lemma count_job_events_commit (db : DB) (jobs : list Job) :
  count is_commit (flat_map (job_events db true) jobs) = length jobs.
Proof. unfold count. induction jobs; simpl in *; auto. Qed.

Lemma count_app (p : event DB -> bool) (l1 l2 : trace DB) :
  count p (l1 ++ l2) = (count p l1 + count p l2)%nat.
Proof. unfold count. by rewrite List.filter_app, length_app. Qed.

(** Every run of the loop, by its outcome: it returns exactly when
    [process_xml] returned on every job, and raises what [process_xml]
    raised on the first job it failed on. *)
Lemma process_xml_jobs_loop_outcome jobs db commit counts skipped tr :
  match process_xml_jobs_loop jobs db commit counts skipped tr with
  | (tr', Ok _) =>
      tr' = tr ++ flat_map (job_events db commit) jobs
      /\ forall done job rest,
          jobs = done ++ job :: rest ->
          exists r,
            process_xml (tr ++ flat_map (job_events db commit) done) job
            = Ok r
  | (tr', Raise e) =>
      exists done job rest,
        jobs = done ++ job :: rest
        /\ process_xml (tr ++ flat_map (job_events db commit) done) job
           = Raise e
        /\ tr' = tr ++ flat_map (job_events db commit) done ++ [EProcessXml job]
  end.
Proof.
  revert counts tr. induction jobs as [|job jobs IH]; intros counts tr.
  - simpl. rewrite app_nil_r. split; [done|].
    intros done job rest Heq. by destruct done.
  - simpl. unfold mbind at 1, M_bind at 1, call_process_xml.
    destruct (process_xml tr job) as [[xml_counts xml_skipped]|e] eqn:Hjob.
    + unfold mbind at 1, M_bind at 1.
      set (counts' := merge_counts xml_counts xml_skipped counts skipped).
      assert (Hstep : (if commit then emit (ECommit db) else mret ())
                        (tr ++ [EProcessXml job])
                      = (tr ++ job_events db commit job, Ok ())).
      { unfold job_events. destruct commit; simpl; [|done].
        unfold emit. by rewrite <- app_assoc. }
      rewrite Hstep. specialize (IH counts' (tr ++ job_events db commit job)).
      destruct (process_xml_jobs_loop jobs db commit counts' skipped _)
        as [tr' [r|e]].
      * destruct IH as [-> Hall]. split; [by rewrite <- app_assoc|].
        intros done j rest Heq. destruct done as [|j0 done].
        -- injection Heq as <- _. simpl. rewrite app_nil_r. eauto.
        -- injection Heq as <- Heq. destruct (Hall done j rest Heq) as [r' Hr].
           exists r'.
           change (flat_map (job_events db commit) (job :: done))
             with (job_events db commit job
                   ++ flat_map (job_events db commit) done).
           by rewrite app_assoc.
      * destruct IH as (done & j & rest & -> & Hraise & ->).
        exists (job :: done), j, rest.
        change (flat_map (job_events db commit) (job :: done))
          with (job_events db commit job
                ++ flat_map (job_events db commit) done).
        split; [done|]. split; [by rewrite app_assoc|].
        by rewrite <- !app_assoc.
    + exists [], job, jobs. simpl. by rewrite app_nil_r.
Qed.

Lemma process_xml_jobs_loop_returns jobs db commit counts skipped tr :
  (forall tr0 job, job ∈ jobs -> exists r, process_xml tr0 job = Ok r) ->
  exists r,
    process_xml_jobs_loop jobs db commit counts skipped tr
    = (tr ++ flat_map (job_events db commit) jobs, Ok r).
Proof.
  intros Hok.
  pose proof (process_xml_jobs_loop_outcome jobs db commit counts skipped tr)
    as Hrun.
  destruct (process_xml_jobs_loop jobs db commit counts skipped tr)
    as [tr' [r|e]].
  - destruct Hrun as [-> _]. by exists r.
  - destruct Hrun as (done & job & rest & -> & Hraise & _).
    destruct (Hok (tr ++ flat_map (job_events db commit) done) job)
      as [r Hr].
    + apply elem_of_app. right. by left.
    + congruence.
Qed.

(** C8.  A pool worker opens a connection of its own, runs the jobs of
    its batch without any commit in between, and commits once, on that
    connection, after the last job.  It returns exactly when
    [process_xml] returned on every job of the batch, and it does so
    whenever [process_xml] does; when [process_xml] raises on a job the
    worker raises the same exception there, without committing.  The
    sequential chunk path (progress bar on, commit on, the caller's
    connection) commits after every job, and stops in the same way on
    the first job that raises. *)
Theorem process_xml_jobs_batch_commits_once
    (batch jobs : list Job) (db : DB) (db_url : string) (tr : trace DB) :
  let own_db := connect_db tr db_url in
  let opened := tr ++ [EConnect db_url own_db; EInitProxy own_db] in
  match process_xml_jobs_batch batch db_url tr with
  | (tr', Ok _) =>
      (forall done job rest,
          batch = done ++ job :: rest ->
          exists r, process_xml (opened ++ map EProcessXml done) job = Ok r)
      /\ exists d, tr' = tr ++ d
           /\ d = [EConnect db_url own_db; EInitProxy own_db]
                  ++ map EProcessXml batch ++ [ECommit own_db]
           /\ count is_commit d = 1%nat
  | (tr', Raise e) =>
      exists done job rest,
        batch = done ++ job :: rest
        /\ process_xml (opened ++ map EProcessXml done) job = Raise e
        /\ exists d, tr' = tr ++ d
             /\ d = [EConnect db_url own_db; EInitProxy own_db]
                    ++ map EProcessXml (done ++ [job])
             /\ count is_commit d = 0%nat
  end
  /\ ((forall tr0 job, job ∈ batch -> exists r, process_xml tr0 job = Ok r) ->
      exists r,
        process_xml_jobs_batch batch db_url tr
        = (tr ++ [EConnect db_url own_db; EInitProxy own_db]
              ++ map EProcessXml batch ++ [ECommit own_db],
           Ok r))
  /\ match process_xml_jobs_sync jobs true db true tr with
     | (tr', Ok _) =>
         (forall done job rest,
             jobs = done ++ job :: rest ->
             exists r,
               process_xml
                 (tr ++ flat_map (fun job => [EProcessXml job; ECommit db])
                          done) job
               = Ok r)
         /\ exists d, tr' = tr ++ d
              /\ d = flat_map (fun job => [EProcessXml job; ECommit db]) jobs
              /\ count is_commit d = length jobs
     | (tr', Raise e) =>
         exists done job rest, jobs = done ++ job :: rest
           /\ process_xml
                (tr ++ flat_map (fun job => [EProcessXml job; ECommit db])
                         done) job
              = Raise e
           /\ tr' = tr ++ flat_map (fun job => [EProcessXml job; ECommit db]) done
                       ++ [EProcessXml job]
     end
  /\ ((forall tr0 job, job ∈ jobs -> exists r, process_xml tr0 job = Ok r) ->
      exists r,
        process_xml_jobs_sync jobs true db true tr
        = (tr ++ flat_map (fun job => [EProcessXml job; ECommit db]) jobs,
           Ok r)).
Proof.
  intros own_db opened.
  assert (Hbatch : process_xml_jobs_batch batch db_url tr
                   = match process_xml_jobs_loop batch own_db false ∅ 0
                             opened with
                     | (tr1, Ok r) => (tr1 ++ [ECommit own_db], Ok r)
                     | (tr1, Raise e) => (tr1, Raise e)
                     end).
  { unfold process_xml_jobs_batch.
    unfold mbind at 1, M_bind at 1, call_connect_db. fold own_db.
    unfold mbind at 1, M_bind at 1, emit.
    unfold mbind at 1, M_bind at 1, process_xml_jobs_sync.
    replace ((tr ++ [EConnect db_url own_db]) ++ [EInitProxy own_db])
      with opened by (unfold opened; by rewrite <- app_assoc).
    destruct (process_xml_jobs_loop batch own_db false ∅ 0 opened)
      as [tr1 [[c s]|e]]; reflexivity. }
  split; [|split; [|split]].
  - rewrite Hbatch.
    pose proof (process_xml_jobs_loop_outcome batch own_db false ∅ 0 opened)
      as Hloop.
    destruct (process_xml_jobs_loop batch own_db false ∅ 0 opened)
      as [tr1 [r|e]].
    + destruct Hloop as [-> Hall].
      rewrite flat_map_job_events_no_commit. split.
      * intros done job rest Heq. destruct (Hall done job rest Heq) as [r' Hr].
        exists r'. by rewrite flat_map_job_events_no_commit in Hr.
      * eexists. split; [|split; [reflexivity|]].
        -- unfold opened. by rewrite <- !app_assoc.
        -- change (count is_commit
                     (map EProcessXml batch ++ [ECommit own_db]) = 1%nat).
           rewrite count_app, count_map_process_xml. reflexivity.
    + destruct Hloop as (done & job & rest & -> & Hraise & ->).
      rewrite flat_map_job_events_no_commit in *.
      exists done, job, rest. split; [done|]. split; [exact Hraise|].
      eexists. split; [|split; [reflexivity|]].
      * unfold opened. by rewrite map_app, <- !app_assoc.
      * change (count is_commit (map (@EProcessXml DB) (done ++ [job]))
                = 0%nat).
        apply count_map_process_xml.
  - intros Hok. rewrite Hbatch.
    destruct (process_xml_jobs_loop_returns batch own_db false ∅ 0 opened Hok)
      as [r ->].
    exists r. rewrite flat_map_job_events_no_commit. unfold opened.
    by rewrite <- !app_assoc.
  - unfold process_xml_jobs_sync.
    pose proof (process_xml_jobs_loop_outcome jobs db true ∅ 0 tr) as Hloop.
    destruct (process_xml_jobs_loop jobs db true ∅ 0 tr) as [tr1 [r|e]].
    + destruct Hloop as [-> Hall]. split; [exact Hall|].
      eexists. split; [reflexivity|]. split; [reflexivity|].
      apply count_job_events_commit.
    + exact Hloop.
  - intros Hok. unfold process_xml_jobs_sync.
    exact (process_xml_jobs_loop_returns jobs db true ∅ 0 tr Hok).
Qed.

(** ** The suppression pass *)

Abbreviation process_chunk :=
  (process_chunk PROCESS_XML_JOBS_BATCH_SIZE MAX_PROCESSES get_table
     get_dossier connect_db process_xml as_completed).
Abbreviation process_chunks :=
  (process_chunks PROCESS_XML_JOBS_BATCH_SIZE MAX_PROCESSES get_table
     get_dossier connect_db process_xml as_completed).
Abbreviation process_archive :=
  (process_archive PROCESS_XML_JOBS_BATCH_SIZE MAX_PROCESSES CHUNK_SIZE
     get_table get_dossier connect_db process_xml as_completed stored_base).

Lemma job_events_count (p : event DB -> bool) (d : trace DB) :
  (forall ev, is_job_event ev = true -> p ev = false) ->
  forallb is_job_event d = true -> count p d = 0%nat.
Proof.
  intros Hp. unfold count. induction d as [|ev d IH]; simpl; [done|].
  intros [Hev Hd]%andb_true_iff. rewrite (Hp ev Hev). auto.
Qed.

Lemma job_event_not_suppress (ev : event DB) :
  is_job_event ev = true -> is_suppress ev = false.
Proof. by destruct ev. Qed.

Lemma job_event_not_file_reader (ev : event DB) :
  is_job_event ev = true -> is_file_reader ev = false.
Proof. by destruct ev. Qed.

(** One chunk: the archive is opened once, then only job events follow;
    when the chunk completes, the suppression list has grown by the
    identifiers met while walking the chunk. *)
Lemma process_chunk_trace db db_url archive process_links base chunk st tr
    tr' out :
  process_chunk db db_url archive process_links base chunk st tr = (tr', out) ->
  exists d,
    tr' = tr ++ EFileReader :: d
    /\ forallb is_job_event d = true
    /\ forall st',
        out = Ok st' ->
        rs_liste_suppression st'
        = rs_liste_suppression st
          ++ flat_map (suppression_ids_of_entry base)
               (iterate_archive_chunk_entries archive chunk.1 chunk.2).
Proof.
  destruct chunk as [chunk_start_idx chunk_end_idx].
  unfold process_chunk.
  unfold mbind at 1, M_bind at 1, emit.
  unfold mbind at 1, M_bind at 1, lift. simpl fst. simpl snd.
  destruct (collect_job_args _ _ _ _ _ _ _) as [[[args liste] unknown]|e]
    eqn:Hcollect.
  - apply collect_job_args_liste_suppression in Hcollect.
    unfold mbind at 1, M_bind at 1.
    destruct (emits_dispatch_jobs (not_none args) db db_url
                (tr ++ [EFileReader])) as (d & Hd & HP).
    destruct (dispatch_jobs (not_none args) db db_url (tr ++ [EFileReader]))
      as [tr1 [[chunk_counts chunk_skipped]|e]]; simpl in Hd; subst tr1.
    + intros [= <- <-]. exists d. rewrite <- app_assoc.
      split; [done|]. split; [done|]. intros st' [= <-]. exact Hcollect.
    + intros [= <- <-]. exists d. rewrite <- app_assoc.
      split; [done|]. split; [done|]. discriminate.
  - intros [= <- <-]. exists [].
    split; [done|]. split; [done|]. discriminate.
Qed.

(** The chunk loop never calls [suppress]; when it completes it has
    opened the archive once per chunk and gathered the identifiers of
    every chunk. *)
Lemma process_chunks_trace db db_url archive process_links base chunks st tr
    tr' out :
  process_chunks db db_url archive process_links base chunks st tr
  = (tr', out) ->
  exists d,
    tr' = tr ++ d
    /\ count is_suppress d = 0%nat
    /\ forall st',
        out = Ok st' ->
        count is_file_reader d = length chunks
        /\ rs_liste_suppression st'
           = rs_liste_suppression st
             ++ suppression_ids_of_chunks base archive chunks.
Proof.
  revert st tr. induction chunks as [|chunk chunks IH]; intros st tr; simpl.
  - intros [= <- <-]. exists []. rewrite !app_nil_r.
    split; [done|]. split; [done|]. by intros st' [= <-].
  - unfold mbind, M_bind.
    destruct (process_chunk db db_url archive process_links base chunk st tr)
      as [tr1 [st1|e]] eqn:Hchunk;
      apply process_chunk_trace in Hchunk as (d1 & -> & HP1 & Hst1).
    + intros Hrest. apply IH in Hrest as (d2 & -> & HP2 & Hst2).
      exists ((EFileReader :: d1) ++ d2). rewrite <- app_assoc.
      split; [done|]. split.
      * rewrite count_app, HP2.
        change (count is_suppress (EFileReader :: d1))
          with (count is_suppress d1).
        rewrite (job_events_count is_suppress d1 job_event_not_suppress HP1).
        done.
      * intros st' Hok. destruct (Hst2 st' Hok) as [Hc Hl]. split.
        -- rewrite count_app, Hc.
           change (count is_file_reader (EFileReader :: d1))
             with (S (count is_file_reader d1)).
           by rewrite (job_events_count is_file_reader d1
                         job_event_not_file_reader HP1).
        -- rewrite Hl, (Hst1 st1 eq_refl), <- app_assoc. reflexivity.
    + intros [= <- <-]. exists (EFileReader :: d1).
      split; [done|]. split; [|discriminate].
      change (count is_suppress (EFileReader :: d1))
        with (count is_suppress d1).
      apply (job_events_count is_suppress d1 job_event_not_suppress HP1).
Qed.

Lemma count_zero_no_split (p : event DB -> bool) (tr pre post : trace DB) ev :
  count p tr = 0%nat -> p ev = true -> tr <> pre ++ ev :: post.
Proof.
  intros Hc Hev ->. rewrite count_app in Hc. unfold count in Hc.
  simpl in Hc. rewrite Hev in Hc. simpl in Hc. lia.
Qed.

(** A trace whose only event of kind [p] is its last one splits around
    such an event in one way. *)
Lemma last_event_split_unique (p : event DB -> bool)
    (body pre post : trace DB) (ev ev' : event DB) :
  count p body = 0%nat -> p ev' = true ->
  body ++ [ev] = pre ++ ev' :: post ->
  pre = body /\ ev' = ev /\ post = [].
Proof.
  revert pre. induction body as [|x body IH]; intros pre Hc Hev' Heq.
  - destruct pre as [|y pre]; simpl in Heq.
    + by injection Heq as <- <-.
    + injection Heq as _ Heq. by destruct pre.
  - destruct pre as [|y pre]; simpl in Heq.
    + injection Heq as <- _. unfold count in Hc. simpl in Hc.
      rewrite Hev' in Hc. discriminate.
    + injection Heq as <- Heq.
      assert (Hc' : count p body = 0%nat).
      { unfold count in *. simpl in Hc. destruct (p x); [discriminate|done]. }
      destruct (IH pre Hc' Hev' Heq) as (-> & -> & ->). done.
Qed.

Lemma suppression_ids_of_chunks_elem base archive chunks
    (chunk : Z * Z) (entry : Entry) (id : string) :
  chunk ∈ chunks ->
  entry ∈ iterate_archive_chunk_entries archive chunk.1 chunk.2 ->
  id ∈ suppression_ids_of_entry base entry ->
  id ∈ suppression_ids_of_chunks base archive chunks.
Proof.
  intros Hc He Hi. unfold suppression_ids_of_chunks.
  apply list_elem_of_In, in_flat_map. exists chunk.
  split; [by apply list_elem_of_In|].
  apply in_flat_map. exists entry. split; by apply list_elem_of_In.
Qed.

(** C4.  In every run of [process_archive], completed or aborted by an
    exception, [suppress] is called at most once.  When it is called it is
    the last thing that happens: every chunk has been walked before (the
    archive has been opened once for the count and once per chunk), and
    its argument is the list of identifiers gathered over all chunks.  In
    a run that completes, an identifier met in any chunk, a later one
    included, is part of that call. *)
Theorem suppress_once_after_all_chunks
    (db : DB) (db_url : string) (archive : list Entry) (process_links : bool) :
  let base := dataset_base stored_base in
  let total := Z.of_nat (length archive) in
  let '(tr, out) := process_archive db db_url archive process_links [] in
  (count is_suppress tr <= 1)%nat
  /\ (forall pre b d ids post,
        tr = pre ++ ESuppress b d ids :: post ->
        post = [] /\ b = base
        /\ exists chunks,
            build_chunks CHUNK_SIZE total = Ok chunks
            /\ count is_file_reader pre = S (length chunks)
            /\ ids = suppression_ids_of_chunks base archive chunks)
  /\ (forall st chunks chunk entry id,
        out = Ok st ->
        build_chunks CHUNK_SIZE total = Ok chunks ->
        chunk ∈ chunks ->
        entry ∈ iterate_archive_chunk_entries archive chunk.1 chunk.2 ->
        id ∈ suppression_ids_of_entry base entry ->
        exists pre d ids, tr = pre ++ [ESuppress base d ids] /\ id ∈ ids).
Proof.
  intros base total.
  destruct (process_archive db db_url archive process_links [])
    as [tr out] eqn:Hrun.
  unfold process_archive in Hrun. cbv zeta in Hrun. fold base total in Hrun.
  unfold mbind at 1, M_bind at 1, emit in Hrun. simpl app in Hrun.
  unfold mbind at 1, M_bind at 1, lift in Hrun.
  assert (Hnone : forall body : trace DB,
             count is_suppress body = 0%nat ->
             (count is_suppress body <= 1)%nat
             /\ (forall pre b d ids post,
                   body = pre ++ ESuppress b d ids :: post ->
                   post = [] /\ b = base
                   /\ exists chunks,
                       build_chunks CHUNK_SIZE total = Ok chunks
                       /\ count is_file_reader pre = S (length chunks)
                       /\ ids = suppression_ids_of_chunks base archive chunks)).
  { intros body Hbody. split; [lia|]. intros pre b d ids post Heq.
    exfalso. by eapply (count_zero_no_split is_suppress); [exact Hbody| |exact Heq]. }
  destruct (build_chunks CHUNK_SIZE total) as [chunks|e] eqn:Hchunks.
  2: { injection Hrun as <- <-.
       destruct (Hnone [EFileReader] eq_refl) as [H1 H2].
       split; [exact H1|]. split; [exact H2|]. discriminate. }
  unfold mbind at 1, M_bind at 1 in Hrun.
  destruct (process_chunks db db_url archive process_links base chunks _ _)
    as [tr1 [st|e]] eqn:Hloop;
    apply process_chunks_trace in Hloop as (body & -> & Hns & Hst).
  2: { injection Hrun as <- <-.
       destruct (Hnone ([EFileReader] ++ body)) as [H1 H2].
       { by rewrite count_app, Hns. }
       split; [exact H1|]. split; [exact H2|]. discriminate. }
  destruct (Hst st eq_refl) as [Hfr Hl]. simpl in Hl.
  unfold mbind at 1, M_bind at 1, apply_suppression in Hrun.
  rewrite Hl in Hrun.
  destruct (suppression_ids_of_chunks base archive chunks) as [|id0 ids0]
    eqn:Hids.
  - injection Hrun as <- <-.
    destruct (Hnone ([EFileReader] ++ body)) as [H1 H2].
    { by rewrite count_app, Hns. }
    split; [exact H1|]. split; [exact H2|].
    intros st' chunks' chunk entry id _ [= <-] Hc He Hi.
    pose proof (suppression_ids_of_chunks_elem base archive chunks
                  chunk entry id Hc He Hi) as Hin.
    rewrite Hids in Hin. by apply elem_of_nil in Hin.
  - unfold mbind, M_bind, mret, M_ret, call_connect_db, emit in Hrun.
    cbv beta iota zeta in Hrun.
    injection Hrun as <- <-.
    set (own_db := connect_db (EFileReader :: body) db_url).
    set (prefix := (EFileReader :: body)
                   ++ [EConnect db_url own_db; EInitProxy own_db]).
    assert (Htr : EFileReader
                  :: ((body ++ [EConnect db_url own_db])
                      ++ [EInitProxy own_db])
                     ++ [ESuppress base own_db (id0 :: ids0)]
                  = prefix ++ [ESuppress base own_db (id0 :: ids0)]).
    { unfold prefix. simpl. by rewrite <- !app_assoc. }
    rewrite Htr. clear Htr.
    assert (Hpre : count is_suppress prefix = 0%nat).
    { unfold prefix. rewrite count_app.
      change (count is_suppress (EFileReader :: body))
        with (count is_suppress body).
      by rewrite Hns. }
    split; [|split].
    + rewrite count_app, Hpre. unfold count. simpl. lia.
    + intros pre b d ids post Heq.
      apply (last_event_split_unique is_suppress) in Heq
        as (-> & [= -> -> ->] & ->); [|exact Hpre|done].
      split; [done|]. split; [done|]. exists chunks.
      split; [done|]. split; [|done].
      unfold prefix. rewrite count_app.
      change (count is_file_reader (EFileReader :: body))
        with (S (count is_file_reader body)).
      rewrite Hfr. unfold count. simpl. lia.
    + intros st' chunks' chunk entry id _ [= <-] Hc He Hi.
      exists prefix, own_db, (id0 :: ids0). split; [done|].
      rewrite <- Hids.
      by apply (suppression_ids_of_chunks_elem base archive chunks chunk entry).
Qed.

End ImporterProperties.

(** ** The statements on concrete inputs *)

Lemma classify_short_path_raises_witness :
  (length (effective_parts "LEGI" (pathname entry_short)) < 3)%nat
  /\ get_process_xml_job_args_for_entry sample_get_table sample_get_dossier
       entry_short "LEGI" [] ∅ true
     = Raise IndexError.
Proof.
  split; [vm_compute; lia|].
  apply classify_short_path_raises.
  - vm_compute. congruence.
  - vm_compute. congruence.
  - vm_compute. lia.
Defined.

Lemma classify_no_table_legi_short_path_raises_witness :
  no_table (effective_parts "LEGI" (pathname entry_legi_short)) = None
  /\ unknown_folder_test (effective_parts "LEGI" (pathname entry_legi_short))
     = Ok false
  /\ get_process_xml_job_args_for_entry no_table sample_get_dossier
       entry_legi_short "LEGI" [] ∅ true
     = Raise IndexError.
Proof.
  split; [reflexivity|]. split; [reflexivity|].
  apply classify_no_table_legi_short_path_raises.
  - vm_compute. congruence.
  - vm_compute. congruence.
  - reflexivity.
  - reflexivity.
  - vm_compute. lia.
Defined.

(** C6, the claim as stated: on the entry under [unrecognized_folder] the
    counter of that name is not the one that moves. *)
Lemma classify_unrecognized_top_level_counterexample :
  ~ (exists liste' unknown',
        get_process_xml_job_args_for_entry sample_get_table sample_get_dossier
          entry_unrecognized "JORF" [] ∅ true
        = Ok (None, liste', unknown')
        /\ count_of unknown' "unrecognized_folder"
           = count_of ∅ "unrecognized_folder" + 1).
Proof.
  intros (liste' & unknown' & Hrun & Hcount).
  vm_compute in Hrun. injection Hrun as _ <-.
  vm_compute in Hcount. discriminate.
Qed.

Lemma classify_unknown_folder_tally_witness :
  get_process_xml_job_args_for_entry sample_get_table sample_get_dossier
    entry_unrecognized "JORF" [] ∅ true
  = Ok (None, [], incr ∅ "misc" 1)
  /\ count_of (incr ∅ "misc" 1) "misc" = count_of ∅ "misc" + 1
  /\ collect_job_args sample_get_table sample_get_dossier
       [entry_directory; entry_unrecognized; entry_disallowed; entry_valid]
       "JORF" [] ∅ true
     = Ok ([None; None; None; Some (job_valid "articles" None)], [],
           <["misc" := 1]> (<["disallowed_category" := 1]> ∅)).
Proof.
  destruct (classify_unknown_folder_tally sample_get_table sample_get_dossier)
    as [Hgen Hexample].
  destruct (Hgen entry_unrecognized "JORF" [] ∅ true
              "unrecognized_folder" "misc") as (H1 & H2 & _).
  - vm_compute. congruence.
  - vm_compute. congruence.
  - reflexivity.
  - reflexivity.
  - left. reflexivity.
  - split; [exact H1|]. split; [exact H2|].
    apply (Hexample "articles"). reflexivity.
Defined.

(** C10, the claim as stated: a path with the base repeated after the
    leading segment is not classified as its remainder is. *)
Lemma classify_base_prefix_counterexample :
  split_on "/" (pathname entry_double_prefix) !! 1%nat = Some (lower "JORF")
  /\ drop_chars (String.length "20200101" + 1) (pathname entry_double_prefix)
     = "jorf/jorf/article/doc.xml"
  /\ get_process_xml_job_args_for_entry sample_get_table sample_get_dossier
       entry_double_prefix "JORF" [] ∅ true
     <> get_process_xml_job_args_for_entry sample_get_table sample_get_dossier
          (with_pathname entry_double_prefix "jorf/jorf/article/doc.xml")
          "JORF" [] ∅ true.
Proof.
  split; [reflexivity|]. split; [reflexivity|].
  intros H. vm_compute in H. discriminate.
Qed.

Lemma classify_base_prefix_witness :
  split_on "/" (pathname entry_prefixed) !! 1%nat = Some (lower "JORF")
  /\ get_process_xml_job_args_for_entry sample_get_table sample_get_dossier
       entry_double_prefix "JORF" [] ∅ true
     = routed [] (route_parts sample_get_table sample_get_dossier
                    entry_double_prefix ["jorf"; "jorf"; "article"; "doc.xml"]
                    "JORF" ∅ true)
  /\ get_process_xml_job_args_for_entry sample_get_table sample_get_dossier
       entry_prefixed "JORF" [] ∅ true
     = get_process_xml_job_args_for_entry sample_get_table sample_get_dossier
         (with_pathname entry_prefixed
            "jorf/global/article/JORFARTI000000000001.xml")
         "JORF" [] ∅ true
  /\ get_process_xml_job_args_for_entry sample_get_table sample_get_dossier
       entry_valid "JORF" [] ∅ true
     = routed [] (route_parts sample_get_table sample_get_dossier entry_valid
                    ["jorf"; "global"; "article"; "JORFARTI000000000001.xml"]
                    "JORF" ∅ true).
Proof.
  split; [reflexivity|].
  destruct (classify_base_prefix sample_get_table sample_get_dossier
              entry_double_prefix "JORF" [] ∅ true) as (Hstrip & _ & _).
  destruct (classify_base_prefix sample_get_table sample_get_dossier
              entry_prefixed "JORF" [] ∅ true) as (_ & Hshift & _).
  destruct (classify_base_prefix sample_get_table sample_get_dossier
              entry_valid "JORF" [] ∅ true) as (_ & _ & Hplain).
  split; [|split].
  - destruct (Hstrip eq_refl) as [_ Hroute]. apply Hroute.
    + vm_compute. congruence.
    + vm_compute. congruence.
  - destruct (Hshift "20200101") as (_ & H & _).
    + discriminate.
    + reflexivity.
    + reflexivity.
    + vm_compute. congruence.
    + exact H.
  - apply Hplain.
    + vm_compute. congruence.
    + vm_compute. congruence.
    + vm_compute. congruence.
Defined.

Lemma dispatch_jobs_policy_witness :
  let jobs := repeat (job_valid "articles" None) (Z.to_nat 10001) in
  let few := repeat (job_valid "articles" None) (Z.to_nat 10000) in
  Z.of_nat (length jobs) > 10 * source_PROCESS_XML_JOBS_BATCH_SIZE
  /\ dispatch_jobs source_PROCESS_XML_JOBS_BATCH_SIZE None sample_connect_db
       sample_process_xml sample_as_completed jobs 0%nat "db"
     = process_xml_jobs_in_parallel source_PROCESS_XML_JOBS_BATCH_SIZE None
         sample_connect_db sample_process_xml sample_as_completed jobs "db"
  /\ dispatch_jobs source_PROCESS_XML_JOBS_BATCH_SIZE None sample_connect_db
       sample_process_xml sample_as_completed few 0%nat "db"
     = process_xml_jobs_sync sample_process_xml few true 0%nat true
  /\ dispatch_jobs source_PROCESS_XML_JOBS_BATCH_SIZE (Some 1)
       sample_connect_db sample_process_xml sample_as_completed jobs 0%nat "db"
     = process_xml_jobs_sync sample_process_xml jobs true 0%nat true.
Proof.
  intros jobs few.
  assert (Hjobs : Z.of_nat (length jobs) = 10001).
  { unfold jobs. rewrite repeat_length. lia. }
  assert (Hfew : Z.of_nat (length few) = 10000).
  { unfold few. rewrite repeat_length. lia. }
  split; [unfold source_PROCESS_XML_JOBS_BATCH_SIZE; lia|]. split; [|split].
  - destruct (dispatch_jobs_policy source_PROCESS_XML_JOBS_BATCH_SIZE None
                sample_connect_db sample_process_xml sample_as_completed
                jobs 0%nat "db") as (_ & _ & Hbound).
    destruct (Hbound eq_refl ltac:(discriminate)) as [_ Hpar].
    exact (Hpar Hjobs).
  - destruct (dispatch_jobs_policy source_PROCESS_XML_JOBS_BATCH_SIZE None
                sample_connect_db sample_process_xml sample_as_completed
                few 0%nat "db") as (_ & _ & Hbound).
    destruct (Hbound eq_refl ltac:(discriminate)) as [Hseq _].
    exact (Hseq Hfew).
  - destruct (dispatch_jobs_policy source_PROCESS_XML_JOBS_BATCH_SIZE (Some 1)
                sample_connect_db sample_process_xml sample_as_completed
                jobs 0%nat "db") as (Hseq & _).
    apply Hseq. left. reflexivity.
Defined.

(** A worker on a batch of two jobs, and the sequential path on the same
    jobs. *)
Example process_xml_jobs_batch_example :
  (process_xml_jobs_batch sample_connect_db sample_process_xml
     [job_valid "articles" None; job_valid "sections" None] "db" []).1
  = [EConnect "db" 0%nat; EInitProxy 0%nat;
     EProcessXml (job_valid "articles" None);
     EProcessXml (job_valid "sections" None); ECommit 0%nat]
  /\ (process_xml_jobs_sync sample_process_xml
        [job_valid "articles" None; job_valid "sections" None] true 7%nat true
        []).1
     = [EProcessXml (job_valid "articles" None); ECommit 7%nat;
        EProcessXml (job_valid "sections" None); ECommit 7%nat].
Proof. split; reflexivity. Qed.

(** A worker and the sequential path on three jobs that all succeed, and
    both on a batch whose second job raises: the worker then stops at
    that job and never commits. *)
Lemma process_xml_jobs_batch_commits_once_witness :
  (exists r,
      process_xml_jobs_batch sample_connect_db sample_process_xml three_jobs
        "db" []
      = ([EConnect "db" 0%nat; EInitProxy 0%nat]
           ++ map EProcessXml three_jobs ++ [ECommit 0%nat],
         Ok r))
  /\ (exists r,
        process_xml_jobs_sync sample_process_xml three_jobs true 7%nat true []
        = (flat_map (fun job => [EProcessXml job; ECommit 7%nat]) three_jobs,
           Ok r))
  /\ exists done job rest d,
      jobs_with_failure = done ++ job :: rest
      /\ (process_xml_jobs_batch sample_connect_db failing_process_xml
            jobs_with_failure "db" []).1 = d
      /\ d = [EConnect "db" 0%nat; EInitProxy 0%nat]
               ++ map EProcessXml (done ++ [job])
      /\ count is_commit d = 0%nat.
Proof.
  split; [|split].
  - destruct (process_xml_jobs_batch_commits_once sample_connect_db
                sample_process_xml three_jobs three_jobs 7%nat "db" [])
      as (_ & Hbatch & _ & _).
    apply Hbatch. intros tr0 job _. eexists. reflexivity.
  - destruct (process_xml_jobs_batch_commits_once sample_connect_db
                sample_process_xml three_jobs three_jobs 7%nat "db" [])
      as (_ & _ & _ & Hsync).
    apply Hsync. intros tr0 job _. eexists. reflexivity.
  - destruct (process_xml_jobs_batch_commits_once sample_connect_db
                failing_process_xml jobs_with_failure jobs_with_failure
                7%nat "db" []) as (Hrun & _).
    destruct (process_xml_jobs_batch sample_connect_db failing_process_xml
                jobs_with_failure "db" []) as [tr' [r|e]] eqn:Hout.
    + vm_compute in Hout. discriminate.
    + destruct Hrun as (done & job & rest & Hsplit & _ & d & -> & Hd & Hc).
      exists done, job, rest, d. repeat split; assumption.
Defined.

(** The sample archive in chunks of two entries: the suppression list is
    met in the last two chunks only, and its identifiers reach the one
    call of [suppress] that closes the run. *)
Lemma suppress_once_after_all_chunks_witness :
  build_chunks 2 (Z.of_nat (length sample_archive))
  = Ok [(0, 2); (2, 4); (4, 5)]
  /\ exists pre d ids,
      (process_archive source_PROCESS_XML_JOBS_BATCH_SIZE None 2
         sample_get_table sample_get_dossier sample_connect_db
         sample_process_xml sample_as_completed (Some "JORF")
         0%nat "db" sample_archive true []).1
      = pre ++ [ESuppress "JORF" d ids]
      /\ "JORFARTI2" ∈ ids.
Proof.
  split; [reflexivity|].
  pose proof (suppress_once_after_all_chunks
                source_PROCESS_XML_JOBS_BATCH_SIZE None 2
                sample_get_table sample_get_dossier sample_connect_db
                sample_process_xml sample_as_completed (Some "JORF")
                0%nat "db" sample_archive true) as H.
  cbv zeta in H.
  destruct (process_archive source_PROCESS_XML_JOBS_BATCH_SIZE None 2
              sample_get_table sample_get_dossier sample_connect_db
              sample_process_xml sample_as_completed (Some "JORF")
              0%nat "db" sample_archive true []) as [tr out] eqn:Hrun.
  destruct H as (_ & _ & Hall).
  assert (Hok : exists st, out = Ok st).
  { vm_compute in Hrun. injection Hrun as _ <-. eauto. }
  destruct Hok as [st Hok]. simpl fst.
  apply (Hall st [(0, 2); (2, 4); (4, 5)] (4, 5) entry_suppression).
  - exact Hok.
  - reflexivity.
  - apply list_elem_of_In. simpl. auto.
  - apply list_elem_of_In. vm_compute. auto.
  - apply list_elem_of_In. vm_compute. auto.
Defined.

(** * Further properties *)

(** ** Walking the chunks of an archive *)

(** The walker for any bounds: the stop test lets at most
    [chunk_end_idx - idx + 1] entries through. *)
Lemma walk_entries_take_any (rest : list Entry) (idx chunk_end_idx : Z) :
  walk_entries rest idx chunk_end_idx
  = take (Z.to_nat (chunk_end_idx - idx + 1)) rest.
Proof.
  destruct (Z.le_gt_cases idx (chunk_end_idx + 1)) as [Hle|Hgt].
  - by apply walk_entries_take.
  - replace (Z.to_nat (chunk_end_idx - idx + 1)) with 0%nat by lia.
    destruct rest as [|entry rest]; simpl; [done|].
    destruct (Z.gtb_spec idx chunk_end_idx); [done|lia].
Qed.

(** When the stream ends at or before the index [chunk_end_idx], as it
    does for the last chunk of an archive, the walker yields every entry
    from [chunk_start_idx] on and nothing twice. *)
Theorem iterate_archive_chunk_entries_to_end
    (archive : list Entry) (chunk_start_idx chunk_end_idx : Z) :
  0 <= chunk_start_idx ->
  Z.of_nat (length archive) <= chunk_end_idx + 1 ->
  iterate_archive_chunk_entries archive chunk_start_idx chunk_end_idx
  = drop (Z.to_nat chunk_start_idx) archive.
Proof.
  intros Hs Hlen. unfold iterate_archive_chunk_entries, consume.
  rewrite walk_entries_take_any. apply take_ge. rewrite length_drop. lia.
Qed.

Lemma iterate_archive_chunk_entries_to_end_witness :
  iterate_archive_chunk_entries [entry_a; entry_b; entry_c] 2 3 = [entry_c].
Proof.
  apply (iterate_archive_chunk_entries_to_end [entry_a; entry_b; entry_c] 2 3).
  - lia.
  - simpl. lia.
Defined.

Lemma build_chunks_ok_inv (CHUNK_SIZE total : Z) (chunks : list (Z * Z)) :
  0 < CHUNK_SIZE -> 0 <= total ->
  build_chunks CHUNK_SIZE total = Ok chunks -> CHUNK_SIZE <= total.
Proof.
  intros HC HT Hok.
  destruct (Z.le_gt_cases CHUNK_SIZE total) as [|Hlt]; [done|].
  unfold build_chunks in Hok.
  destruct (Z.eqb_spec CHUNK_SIZE 0); [lia|].
  rewrite Z.div_small in Hok by lia. discriminate.
Qed.

Lemma build_chunks_ok_tiles (CHUNK_SIZE total : Z) (chunks : list (Z * Z)) :
  0 < CHUNK_SIZE -> 0 <= total ->
  build_chunks CHUNK_SIZE total = Ok chunks ->
  tiles 0 chunks total /\ chunks <> [].
Proof.
  intros HC HT Hok.
  pose proof (build_chunks_ok_inv _ _ _ HC HT Hok) as Hle.
  destruct (build_chunks_tiles CHUNK_SIZE total (conj HC Hle))
    as (chunks' & Hok' & Htiles & _).
  rewrite Hok in Hok'. injection Hok' as <-. split; [done|].
  intros ->. simpl in Htiles. lia.
Qed.

Lemma tiles_bounds (from to : Z) (chunks : list (Z * Z)) :
  tiles from chunks to -> from <= to /\ (chunks <> [] -> from < to).
Proof.
  revert from. induction chunks as [|[s e] chunks IH]; simpl; intros from.
  - intros ->. split; [lia|done].
  - intros (-> & Hlt & Hrest). destruct (IH e Hrest). split; [lia|].
    intros _. lia.
Qed.

(** Every position of the range is inside a chunk whose walk reaches
    it. *)
Lemma tiles_cover (archive : list Entry) (from : Z) (chunks : list (Z * Z))
    (i : nat) (x : Entry) :
  0 <= from ->
  tiles from chunks (Z.of_nat (length archive)) ->
  from <= Z.of_nat i ->
  archive !! i = Some x ->
  exists chunk,
    chunk ∈ chunks
    /\ x ∈ iterate_archive_chunk_entries archive chunk.1 chunk.2.
Proof.
  revert from. induction chunks as [|[s e] chunks IH]; simpl;
    intros from Hfrom Htiles Hi Hx.
  - apply lookup_lt_Some in Hx. lia.
  - destruct Htiles as (Hs & Hlt & Hrest). subst from.
    destruct (Z.le_gt_cases e (Z.of_nat i)) as [Hge|Hin].
    + destruct (IH e ltac:(lia) Hrest Hge Hx) as (chunk & Hc & Hw).
      exists chunk. split; [by right|done].
    + exists (s, e). split; [by left|]. simpl.
      unfold iterate_archive_chunk_entries, consume.
      rewrite walk_entries_take_any.
      apply (list_elem_of_lookup_2 _ (i - Z.to_nat s)%nat).
      rewrite lookup_take_lt by lia. rewrite lookup_drop.
      by replace (Z.to_nat s + (i - Z.to_nat s))%nat with i by lia.
Qed.

(** No entry is left out: once the chunk list is built, every entry of
    the archive is yielded by the walk of at least one chunk. *)
Theorem chunks_cover_archive
    (CHUNK_SIZE : Z) (archive : list Entry) (chunks : list (Z * Z))
    (i : nat) (x : Entry) :
  0 < CHUNK_SIZE ->
  build_chunks CHUNK_SIZE (Z.of_nat (length archive)) = Ok chunks ->
  archive !! i = Some x ->
  exists chunk,
    chunk ∈ chunks
    /\ x ∈ iterate_archive_chunk_entries archive chunk.1 chunk.2.
Proof.
  intros HC Hok Hx.
  destruct (build_chunks_ok_tiles CHUNK_SIZE (Z.of_nat (length archive)) chunks
              HC ltac:(lia) Hok) as [Htiles _].
  apply (tiles_cover archive 0 chunks i x); [lia|done|lia|done].
Qed.

Lemma chunks_cover_archive_witness :
  build_chunks 2 (Z.of_nat (length sample_archive))
  = Ok [(0, 2); (2, 4); (4, 5)]
  /\ exists chunk,
      chunk ∈ [(0, 2); (2, 4); (4, 5)]
      /\ entry_suppression
         ∈ iterate_archive_chunk_entries sample_archive chunk.1 chunk.2.
Proof.
  split; [reflexivity|].
  apply (chunks_cover_archive 2 sample_archive [(0, 2); (2, 4); (4, 5)] 4).
  - lia.
  - reflexivity.
  - reflexivity.
Defined.

Lemma tiles_walk_length (archive : list Entry) (from : Z)
    (chunks : list (Z * Z)) :
  0 <= from -> chunks <> [] ->
  tiles from chunks (Z.of_nat (length archive)) ->
  Z.of_nat (length (flat_map
                      (fun chunk : Z * Z =>
                         iterate_archive_chunk_entries archive chunk.1 chunk.2)
                      chunks))
  = Z.of_nat (length archive) - from + Z.of_nat (length chunks) - 1.
Proof.
  revert from. induction chunks as [|[s e] chunks IH]; [done|].
  intros from Hfrom _ (Hs & Hlt & Hrest). subst from. simpl flat_map.
  rewrite length_app. simpl fst. simpl snd.
  unfold iterate_archive_chunk_entries at 1, consume.
  rewrite walk_entries_take_any, length_take, length_drop.
  destruct (tiles_bounds _ _ _ Hrest) as [Hle Hne].
  destruct chunks as [|chunk chunks].
  - simpl in Hrest. subst e. simpl. lia.
  - specialize (Hne ltac:(done)).
    rewrite Nat2Z.inj_add, (IH e ltac:(lia) ltac:(done) Hrest).
    simpl length. lia.
Qed.

(** The walks of the chunks yield, in total, one entry more than the
    archive holds for every chunk after the first: the entry on each
    inner chunk boundary is yielded by the chunk that ends there and by
    the one that starts there. *)
Theorem chunks_walk_length
    (CHUNK_SIZE : Z) (archive : list Entry) (chunks : list (Z * Z)) :
  0 < CHUNK_SIZE ->
  build_chunks CHUNK_SIZE (Z.of_nat (length archive)) = Ok chunks ->
  Z.of_nat (length (flat_map
                      (fun chunk : Z * Z =>
                         iterate_archive_chunk_entries archive chunk.1 chunk.2)
                      chunks))
  = Z.of_nat (length archive) + Z.of_nat (length chunks) - 1.
Proof.
  intros HC Hok.
  destruct (build_chunks_ok_tiles CHUNK_SIZE (Z.of_nat (length archive)) chunks
              HC ltac:(lia) Hok) as [Htiles Hne].
  rewrite (tiles_walk_length archive 0 chunks); [lia|lia|done|done].
Qed.

Lemma chunks_walk_length_witness :
  Z.of_nat (length (flat_map
                      (fun chunk : Z * Z =>
                         iterate_archive_chunk_entries sample_archive
                           chunk.1 chunk.2)
                      [(0, 2); (2, 4); (4, 5)]))
  = 5 + 3 - 1.
Proof.
  apply (chunks_walk_length 2 sample_archive [(0, 2); (2, 4); (4, 5)]).
  - lia.
  - reflexivity.
Defined.

(** ** Merging statistics *)

Lemma merge_counts_get (sub_counts : gmap string Z) (sub_skipped : Z)
    (counts : gmap string Z) (skipped : Z) (key : string) :
  merge_counts sub_counts sub_skipped counts skipped !! key
  = match sub_counts !! key with
    | Some n => Some (default 0 (counts !! key) + n)
    | None => counts !! key
    end.
Proof.
  revert key. unfold merge_counts. cbv zeta.
  apply (map_fold_weak_ind
           (fun r m => forall key,
                r !! key = match m !! key with
                           | Some n => Some (default 0 (counts !! key) + n)
                           | None => counts !! key
                           end)).
  - intros key. by rewrite lookup_empty.
  - intros i x m r Hi IH key. unfold incr.
    destruct (decide (i = key)) as [->|Hne].
    + rewrite !lookup_insert_eq. specialize (IH key).
      rewrite Hi in IH. by rewrite IH.
    + rewrite !lookup_insert_ne by done. apply IH.
Qed.

(** The dictionary after [merge_counts]: a key of the sub-statistics
    holds the old count (zero when the key is new) plus the sub-count,
    every other key is untouched.  In particular merging an empty
    dictionary changes nothing and the keys of the result are those of
    both dictionaries. *)
Theorem merge_counts_lookup (sub_counts : gmap string Z) (sub_skipped : Z)
    (counts : gmap string Z) (skipped : Z) :
  (forall key,
      merge_counts sub_counts sub_skipped counts skipped !! key
      = match sub_counts !! key with
        | Some n => Some (default 0 (counts !! key) + n)
        | None => counts !! key
        end)
  /\ merge_counts ∅ sub_skipped counts skipped = counts
  /\ dom (merge_counts sub_counts sub_skipped counts skipped)
     = dom counts ∪ dom sub_counts.
Proof.
  split; [apply merge_counts_get|]. split.
  - apply map_eq. intros key. by rewrite merge_counts_get, lookup_empty.
  - apply set_eq. intros key.
    rewrite elem_of_union, !elem_of_dom, merge_counts_get.
    destruct (sub_counts !! key) as [n|], (counts !! key) as [c|];
      simpl; split; intros H; eauto;
      try (destruct H as [H|H]; by inversion H).
Qed.

(** Two sub-statistics can be merged into an accumulator in either
    order: the resulting dictionaries are equal. *)
Theorem merge_counts_commute (a b counts : gmap string Z)
    (sa sb s1 s2 s3 s4 : Z) :
  merge_counts a sa (merge_counts b sb counts s1) s2
  = merge_counts b sb (merge_counts a sa counts s3) s4.
Proof.
  apply map_eq. intros key. rewrite !merge_counts_get.
  destruct (a !! key) as [x|], (b !! key) as [y|]; simpl; try done.
  f_equal. lia.
Qed.

(** ** The executors *)

Section ImporterExtras.

Context {DB : Type}.
Variable PROCESS_XML_JOBS_BATCH_SIZE : Z.
Variable MAX_PROCESSES : option Z.
Variable CHUNK_SIZE : Z.
Variable get_table : list string -> option string.
Variable get_dossier : list string -> string -> option string.
Variable connect_db : trace DB -> string -> DB.
Variable process_xml : trace DB -> Job -> outcome (gmap string Z * Z).
Variable as_completed : list (list Job) -> list (list Job).
Variable stored_base : option string.

Abbreviation process_xml_jobs_loop := (process_xml_jobs_loop process_xml).
Abbreviation process_xml_jobs_sync := (process_xml_jobs_sync process_xml).
Abbreviation process_xml_jobs_batch :=
  (process_xml_jobs_batch connect_db process_xml).
Abbreviation run_futures := (run_futures connect_db process_xml).
Abbreviation make_batches := (make_batches PROCESS_XML_JOBS_BATCH_SIZE).
Abbreviation process_xml_jobs_in_parallel :=
  (process_xml_jobs_in_parallel PROCESS_XML_JOBS_BATCH_SIZE MAX_PROCESSES
     connect_db process_xml as_completed).
Abbreviation process_chunk :=
  (process_chunk PROCESS_XML_JOBS_BATCH_SIZE MAX_PROCESSES get_table
     get_dossier connect_db process_xml as_completed).
Abbreviation process_chunks :=
  (process_chunks PROCESS_XML_JOBS_BATCH_SIZE MAX_PROCESSES get_table
     get_dossier connect_db process_xml as_completed).
Abbreviation process_archive :=
  (process_archive PROCESS_XML_JOBS_BATCH_SIZE MAX_PROCESSES CHUNK_SIZE
     get_table get_dossier connect_db process_xml as_completed stored_base).

(** *** What the sequential executor returns *)

Lemma process_xml_jobs_loop_skipped jobs db commit counts skipped tr
    tr' counts' skipped' :
  process_xml_jobs_loop jobs db commit counts skipped tr
  = (tr', Ok (counts', skipped')) ->
  skipped' = skipped.
Proof.
  revert counts tr. induction jobs as [|job jobs IH]; intros counts tr; simpl.
  - by intros [= _ _ <-].
  - unfold mbind at 1, M_bind at 1, call_process_xml.
    destruct (process_xml tr job) as [[xml_counts xml_skipped]|e];
      [|discriminate].
    unfold mbind at 1, M_bind at 1.
    destruct commit; simpl; apply IH.
Qed.

(** Whatever the per-document step reports as skipped, the sequential
    executor returns a skip total of [0]. *)
Theorem process_xml_jobs_sync_skipped_zero
    (jobs : list Job) (progress : bool) (db : DB) (commit : bool)
    (tr tr' : trace DB) (counts : gmap string Z) (skipped : Z) :
  process_xml_jobs_sync jobs progress db commit tr
  = (tr', Ok (counts, skipped)) ->
  skipped = 0.
Proof. apply process_xml_jobs_loop_skipped. Qed.

Lemma process_xml_jobs_loop_totals (report : Job -> gmap string Z * Z)
    jobs db commit counts skipped tr :
  (forall tr job, process_xml tr job = Ok (report job)) ->
  exists tr' counts',
    process_xml_jobs_loop jobs db commit counts skipped tr
    = (tr', Ok (counts', skipped))
    /\ forall key,
        count_of counts' key = count_of counts key + total_of report key jobs.
Proof.
  intros Hreport. revert counts tr.
  induction jobs as [|job jobs IH]; intros counts tr; simpl.
  - exists tr, counts. split; [done|]. intros key. lia.
  - unfold mbind at 1, M_bind at 1, call_process_xml. rewrite Hreport.
    destruct (report job) as [xml_counts xml_skipped] eqn:Hjob.
    unfold mbind at 1, M_bind at 1.
    set (counts1 := merge_counts xml_counts xml_skipped counts skipped).
    assert (Hstep : exists tr1,
               (if commit then emit (ECommit db) else mret ())
                 (tr ++ [EProcessXml job]) = (tr1, Ok ())).
    { destruct commit; eauto. }
    destruct Hstep as [tr1 ->].
    destruct (IH counts1 tr1) as (tr' & counts' & Hrun & Htot).
    exists tr', counts'. split; [exact Hrun|]. intros key.
    rewrite Htot. unfold counts1. rewrite merge_counts_count_of.
    simpl. lia.
Qed.

(** When the per-document step answers [report job] for every job, the
    sequential executor returns, for every change kind, the sum of what
    the jobs report. *)
Theorem process_xml_jobs_sync_totals (report : Job -> gmap string Z * Z)
    (jobs : list Job) (progress : bool) (db : DB) (commit : bool)
    (tr : trace DB) :
  (forall tr job, process_xml tr job = Ok (report job)) ->
  exists tr' counts,
    process_xml_jobs_sync jobs progress db commit tr = (tr', Ok (counts, 0))
    /\ forall key, count_of counts key = total_of report key jobs.
Proof.
  intros Hreport.
  destruct (process_xml_jobs_loop_totals report jobs db commit ∅ 0 tr Hreport)
    as (tr' & counts & Hrun & Htot).
  exists tr', counts. split; [exact Hrun|]. intros key. rewrite Htot.
  unfold count_of at 1. by rewrite lookup_empty.
Qed.

Lemma process_xml_jobs_loop_raise jobs db commit counts skipped tr tr' e :
  process_xml_jobs_loop jobs db commit counts skipped tr = (tr', Raise e) ->
  exists done job rest,
    jobs = done ++ job :: rest
    /\ process_xml (tr ++ flat_map (job_events db commit) done) job = Raise e
    /\ tr' = tr ++ flat_map (job_events db commit) done ++ [EProcessXml job].
Proof.
  revert counts tr. induction jobs as [|job jobs IH]; intros counts tr; simpl.
  - discriminate.
  - unfold mbind at 1, M_bind at 1, call_process_xml.
    destruct (process_xml tr job) as [[xml_counts xml_skipped]|e'] eqn:Hjob.
    + unfold mbind at 1, M_bind at 1.
      assert (Hstep : (if commit then emit (ECommit db) else mret ())
                        (tr ++ [EProcessXml job])
                      = (tr ++ job_events db commit job, Ok ())).
      { unfold job_events. destruct commit; simpl.
        - unfold emit. by rewrite <- app_assoc.
        - done. }
      rewrite Hstep. intros Hrest.
      apply IH in Hrest as (done & j & rest & -> & Hraise & ->).
      exists (job :: done), j, rest. simpl.
      rewrite <- !app_assoc in *. done.
    + intros [= <- <-]. exists [], job, jobs. simpl.
      by rewrite app_nil_r.
Qed.

Lemma process_xml_jobs_loop_stops done job rest db commit counts skipped tr e :
  (forall d1 j d2,
      done = d1 ++ j :: d2 ->
      exists r, process_xml (tr ++ flat_map (job_events db commit) d1) j = Ok r) ->
  process_xml (tr ++ flat_map (job_events db commit) done) job = Raise e ->
  process_xml_jobs_loop (done ++ job :: rest) db commit counts skipped tr
  = (tr ++ flat_map (job_events db commit) done ++ [EProcessXml job], Raise e).
Proof.
  revert counts tr. induction done as [|j0 done IH]; intros counts tr Hok Hraise.
  - simpl in Hraise. rewrite app_nil_r in Hraise. simpl.
    unfold mbind at 1, M_bind at 1, call_process_xml. by rewrite Hraise.
  - destruct (Hok [] j0 done eq_refl) as [[xml_counts xml_skipped] Hj0].
    simpl in Hj0. rewrite app_nil_r in Hj0.
    change ((j0 :: done) ++ job :: rest) with (j0 :: (done ++ job :: rest)).
    simpl process_xml_jobs_loop.
    unfold mbind at 1, M_bind at 1, call_process_xml. rewrite Hj0.
    unfold mbind at 1, M_bind at 1.
    assert (Hstep : (if commit then emit (ECommit db) else mret ())
                      (tr ++ [EProcessXml j0])
                    = (tr ++ job_events db commit j0, Ok ())).
    { unfold job_events. destruct commit; simpl; [|done].
      unfold emit. by rewrite <- app_assoc. }
    rewrite Hstep.
    change (flat_map (job_events db commit) (j0 :: done))
      with (job_events db commit j0 ++ flat_map (job_events db commit) done)
      in *.
    rewrite IH.
    + by rewrite <- !app_assoc.
    + intros d1 j d2 ->.
      destruct (Hok (j0 :: d1) j d2 eq_refl) as [r Hr]. exists r.
      change (flat_map (job_events db commit) (j0 :: d1))
        with (job_events db commit j0 ++ flat_map (job_events db commit) d1)
        in Hr.
      by rewrite <- app_assoc.
    + by rewrite <- app_assoc.
Qed.

(** When the per-document step raises on a job, after having returned on
    the jobs before it, the sequential executor raises that exception at
    once: the jobs before it have been processed (and committed when
    asked), the failing job is not committed, the jobs after it are not
    touched.  Conversely the executor raises only in that way. *)
Theorem process_xml_jobs_sync_stops_at_failure
    (jobs : list Job) (progress : bool) (db : DB) (commit : bool)
    (tr : trace DB) (e : exn) :
  (forall done job rest,
      jobs = done ++ job :: rest ->
      (forall d1 j d2,
          done = d1 ++ j :: d2 ->
          exists r,
            process_xml (tr ++ flat_map (job_events db commit) d1) j = Ok r) ->
      process_xml (tr ++ flat_map (job_events db commit) done) job = Raise e ->
      process_xml_jobs_sync jobs progress db commit tr
      = (tr ++ flat_map (job_events db commit) done ++ [EProcessXml job],
         Raise e))
  /\ (forall tr',
        process_xml_jobs_sync jobs progress db commit tr = (tr', Raise e) ->
        exists done job rest,
          jobs = done ++ job :: rest
          /\ process_xml (tr ++ flat_map (job_events db commit) done) job
             = Raise e
          /\ tr' = tr ++ flat_map (job_events db commit) done
                      ++ [EProcessXml job]).
Proof.
  split.
  - intros done job rest -> Hok Hraise.
    by apply process_xml_jobs_loop_stops.
  - intros tr'. apply process_xml_jobs_loop_raise.
Qed.

(** *** Batches *)

Lemma slices_spec (fuel size : nat) (l : list Job) :
  (0 < size)%nat -> (length l <= fuel)%nat ->
  concat (slices fuel size l) = l
  /\ Forall (fun batch => batch <> [] /\ (length batch <= size)%nat)
       (slices fuel size l)
  /\ forall i batch,
      slices fuel size l !! i = Some batch ->
      (S i < length (slices fuel size l))%nat ->
      length batch = size.
Proof.
  intros Hsize. revert l. induction fuel as [|fuel IH]; intros l Hlen.
  - destruct l; [|simpl in Hlen; lia]. simpl. split; [done|].
    split; [constructor|]. intros i batch Hi. by rewrite lookup_nil in Hi.
  - destruct l as [|job l].
    { simpl. split; [done|]. split; [constructor|].
      intros i batch Hi. by rewrite lookup_nil in Hi. }
    change (slices (S fuel) size (job :: l))
      with (take size (job :: l) :: slices fuel size (drop size (job :: l))).
    destruct (IH (drop size (job :: l))) as (Hcat & Hall & Hfull).
    { rewrite length_drop. simpl length in *. lia. }
    split; [|split].
    + simpl concat. rewrite Hcat. apply take_drop.
    + constructor; [|exact Hall]. split.
      * destruct size; [lia|done].
      * rewrite length_take. lia.
    + intros [|i] batch Hi Hmore.
      * injection Hi as <-. rewrite length_take.
        simpl length in Hmore.
        destruct (drop size (job :: l)) as [|j' l'] eqn:Hdrop.
        -- destruct fuel; simpl in Hmore; lia.
        -- assert (length (drop size (job :: l)) > 0)%nat
             by (rewrite Hdrop; simpl; lia).
           rewrite length_drop in *. lia.
      * simpl in Hi. apply (Hfull i batch Hi). simpl length in Hmore. lia.
Qed.

(** With a positive batch size the batches are a partition of the job
    list into consecutive slices: concatenated they give the list back,
    none is empty, none exceeds the batch size and all but the last have
    exactly the batch size. *)
Theorem make_batches_partition (jobs : list Job) :
  0 < PROCESS_XML_JOBS_BATCH_SIZE ->
  exists batches,
    make_batches jobs = Ok batches
    /\ concat batches = jobs
    /\ Forall (fun batch =>
                 batch <> []
                 /\ Z.of_nat (length batch) <= PROCESS_XML_JOBS_BATCH_SIZE)
         batches
    /\ forall i batch,
        batches !! i = Some batch ->
        (S i < length batches)%nat ->
        Z.of_nat (length batch) = PROCESS_XML_JOBS_BATCH_SIZE.
Proof.
  intros HB. unfold make_batches.
  destruct (Z.eqb_spec PROCESS_XML_JOBS_BATCH_SIZE 0); [lia|].
  destruct (Z.ltb_spec PROCESS_XML_JOBS_BATCH_SIZE 0); [lia|].
  destruct (slices_spec (length jobs) (Z.to_nat PROCESS_XML_JOBS_BATCH_SIZE)
              jobs ltac:(lia) ltac:(lia)) as (Hcat & Hall & Hfull).
  eexists. split; [reflexivity|]. split; [exact Hcat|]. split.
  - eapply Forall_impl; [exact Hall|]. simpl. intros batch [? ?].
    split; [done|lia].
  - intros i batch Hi Hmore. rewrite (Hfull i batch Hi Hmore). lia.
Qed.

(** *** What the pool returns *)

Lemma total_of_app (report : Job -> gmap string Z * Z) (key : string)
    (l1 l2 : list Job) :
  total_of report key (l1 ++ l2)
  = total_of report key l1 + total_of report key l2.
Proof. induction l1 as [|job l1 IH]; simpl; lia. Qed.

Lemma total_of_concat_perm (report : Job -> gmap string Z * Z) (key : string)
    (bs bs' : list (list Job)) :
  Permutation bs bs' ->
  total_of report key (concat bs) = total_of report key (concat bs').
Proof.
  induction 1 as [|b l l' _ IH|b1 b2 l|l1 l2 l3 _ IH1 _ IH2]; simpl.
  - done.
  - rewrite !total_of_app. lia.
  - rewrite !total_of_app. lia.
  - lia.
Qed.

Lemma process_xml_jobs_batch_totals (report : Job -> gmap string Z * Z)
    batch db_url tr :
  (forall tr job, process_xml tr job = Ok (report job)) ->
  exists tr' counts,
    process_xml_jobs_batch batch db_url tr = (tr', Ok (counts, 0))
    /\ forall key, count_of counts key = total_of report key batch.
Proof.
  intros Hreport. unfold process_xml_jobs_batch.
  unfold mbind at 1, M_bind at 1, call_connect_db.
  unfold mbind at 1, M_bind at 1, emit.
  unfold mbind at 1, M_bind at 1, process_xml_jobs_sync.
  destruct (process_xml_jobs_loop_totals report batch
              (connect_db tr db_url) false ∅ 0
              ((tr ++ [EConnect db_url (connect_db tr db_url)])
               ++ [EInitProxy (connect_db tr db_url)]) Hreport)
    as (tr1 & counts & Hrun & Htot).
  rewrite Hrun. simpl. eexists _, counts. split; [reflexivity|].
  intros key. rewrite Htot. unfold count_of at 1. by rewrite lookup_empty.
Qed.

Lemma run_futures_totals (report : Job -> gmap string Z * Z)
    batches db_url tr :
  (forall tr job, process_xml tr job = Ok (report job)) ->
  exists tr' results,
    run_futures batches db_url tr = (tr', results)
    /\ forall counts skipped,
        exists counts',
          collect_futures results counts skipped = Ok (counts', skipped)
          /\ forall key,
              count_of counts' key
              = count_of counts key + total_of report key (concat batches).
Proof.
  intros Hreport. revert tr.
  induction batches as [|batch batches IH]; intros tr; simpl.
  - exists tr, []. split; [done|]. intros counts skipped.
    exists counts. split; [done|]. intros key. lia.
  - destruct (process_xml_jobs_batch_totals report batch db_url tr Hreport)
      as (tr1 & batch_counts & -> & Hbatch).
    destruct (IH tr1) as (tr2 & results & -> & Hrest).
    exists tr2, (Ok (batch_counts, 0) :: results). split; [done|].
    intros counts skipped. simpl.
    destruct (Hrest (merge_counts batch_counts 0 counts skipped) skipped)
      as (counts' & Hcollect & Htot).
    exists counts'. split; [exact Hcollect|]. intros key.
    rewrite Htot, merge_counts_count_of, Hbatch, total_of_app. lia.
Qed.

(** Batching does not change the totals: when the per-document step
    answers [report job] for every job, the batch size is positive, the
    worker maximum is unset or positive and the futures complete in some
    order of the submitted batches, the pool returns for every change
    kind the sum of what the jobs report (what the sequential executor
    returns for the same jobs) and a skip total of [0].  With a worker
    maximum that is set and not positive the pool raises [ValueError]
    before any batch runs. *)
Theorem process_xml_jobs_in_parallel_totals
    (report : Job -> gmap string Z * Z) (jobs : list Job) (db_url : string)
    (tr : trace DB) :
  0 < PROCESS_XML_JOBS_BATCH_SIZE ->
  ((forall tr job, process_xml tr job = Ok (report job)) ->
   (forall batches, Permutation (as_completed batches) batches) ->
   (forall max_workers, MAX_PROCESSES = Some max_workers -> 0 < max_workers) ->
   exists tr' counts,
     process_xml_jobs_in_parallel jobs db_url tr = (tr', Ok (counts, 0))
     /\ forall key, count_of counts key = total_of report key jobs)
  /\ (forall max_workers,
        MAX_PROCESSES = Some max_workers -> max_workers <= 0 ->
        process_xml_jobs_in_parallel jobs db_url tr = (tr, Raise ValueError)).
Proof.
  intros HB.
  assert (Hbatches : make_batches jobs
                     = Ok (slices (length jobs)
                             (Z.to_nat PROCESS_XML_JOBS_BATCH_SIZE) jobs)).
  { unfold make_batches.
    destruct (Z.eqb_spec PROCESS_XML_JOBS_BATCH_SIZE 0); [lia|].
    destruct (Z.ltb_spec PROCESS_XML_JOBS_BATCH_SIZE 0); [lia|]. done. }
  split.
  - intros Hreport Hperm Hmax.
    unfold process_xml_jobs_in_parallel. cbv zeta.
    unfold mbind at 1, M_bind at 1, lift. rewrite Hbatches.
    set (batches := slices (length jobs)
                      (Z.to_nat PROCESS_XML_JOBS_BATCH_SIZE) jobs).
    assert (Hcat : concat batches = jobs).
    { apply slices_spec; lia. }
    assert (Hpool : pool_executor MAX_PROCESSES = Ok ()).
    { unfold pool_executor. destruct MAX_PROCESSES as [n|]; [|done].
      specialize (Hmax n eq_refl).
      destruct (Z.leb_spec n 0); [lia|done]. }
    unfold mbind at 1, M_bind at 1. rewrite Hpool.
    unfold mbind at 1, M_bind at 1.
    destruct (run_futures_totals report (as_completed batches) db_url tr
                Hreport) as (tr' & results & -> & Hcollect).
    destruct (Hcollect ∅ 0) as (counts & Hok & Htot).
    exists tr', counts. unfold lift. rewrite Hok. split; [done|].
    intros key. rewrite Htot.
    rewrite (total_of_concat_perm report key _ _ (Hperm batches)), Hcat.
    unfold count_of at 1. by rewrite lookup_empty.
  - intros n Hn Hle.
    unfold process_xml_jobs_in_parallel. cbv zeta.
    unfold mbind at 1, M_bind at 1, lift. rewrite Hbatches.
    unfold mbind at 1, M_bind at 1, pool_executor. rewrite Hn.
    destruct (Z.leb_spec n 0); [done|lia].
Qed.

(** *** Commits of the pool *)

Lemma count_cons (p : event DB -> bool) (ev : event DB) (tr : trace DB) :
  count p (ev :: tr) = ((if p ev then 1 else 0) + count p tr)%nat.
Proof. unfold count. simpl. by destruct (p ev). Qed.

Lemma count_process_xml_events (p : event DB -> bool) (b : bool)
    (jobs : list Job) :
  (forall job, p (EProcessXml job) = b) ->
  count p (map EProcessXml jobs) = if b then length jobs else 0%nat.
Proof.
  intros Hp. induction jobs as [|job jobs IH]; simpl map.
  - by destruct b.
  - rewrite count_cons, IH, Hp. destruct b; simpl; lia.
Qed.

Lemma process_xml_jobs_batch_ok_counts batch db_url tr tr' r :
  process_xml_jobs_batch batch db_url tr = (tr', Ok r) ->
  exists d,
    tr' = tr ++ d
    /\ count is_connect d = 1%nat
    /\ count is_commit d = 1%nat
    /\ count is_process_xml d = length batch.
Proof.
  unfold process_xml_jobs_batch.
  unfold mbind at 1, M_bind at 1, call_connect_db.
  set (own_db := connect_db tr db_url).
  unfold mbind at 1, M_bind at 1, emit.
  unfold mbind at 1, M_bind at 1, process_xml_jobs_sync.
  pose proof (process_xml_jobs_loop_trace process_xml batch own_db false ∅ 0
                ((tr ++ [EConnect db_url own_db]) ++ [EInitProxy own_db]))
    as Hloop.
  destruct (process_xml_jobs_loop batch own_db false ∅ 0 _)
    as [tr1 [[c s]|e]]; [|discriminate].
  rewrite flat_map_job_events_no_commit in Hloop. subst tr1.
  simpl. intros [= <- _].
  exists ([EConnect db_url own_db; EInitProxy own_db]
          ++ map EProcessXml batch ++ [ECommit own_db]).
  split; [by rewrite <- !app_assoc|].
  rewrite !count_app.
  rewrite (count_process_xml_events is_connect false) by done.
  rewrite (count_process_xml_events is_commit false) by done.
  rewrite (count_process_xml_events is_process_xml true) by done.
  repeat split; unfold count; simpl; lia.
Qed.

Lemma run_futures_ok_counts batches db_url tr tr' results :
  run_futures batches db_url tr = (tr', results) ->
  Forall (fun r => exists v, r = Ok v) results ->
  exists d,
    tr' = tr ++ d
    /\ count is_connect d = length batches
    /\ count is_commit d = length batches
    /\ count is_process_xml d = length (concat batches).
Proof.
  revert tr tr' results.
  induction batches as [|batch batches IH]; intros tr tr' results; simpl.
  - intros [= <- <-] _. exists []. by rewrite app_nil_r.
  - destruct (process_xml_jobs_batch batch db_url tr) as [tr1 r] eqn:Hbatch.
    destruct (run_futures batches db_url tr1) as [tr2 rs] eqn:Hrest.
    intros [= <- <-] Hall. inversion Hall as [|? ? [v ->] Hrs]; subst.
    apply process_xml_jobs_batch_ok_counts in Hbatch
      as (d1 & -> & Hc1 & Hm1 & Hp1).
    apply IH in Hrest as (d2 & -> & Hc2 & Hm2 & Hp2); [|done].
    exists (d1 ++ d2). rewrite <- app_assoc. split; [done|].
    rewrite !count_app, length_app. lia.
Qed.

Lemma collect_futures_ok results counts skipped v :
  collect_futures results counts skipped = Ok v ->
  Forall (fun r => exists v, r = Ok v) results.
Proof.
  revert counts. induction results as [|[[c s]|e] results IH];
    intros counts; simpl.
  - constructor.
  - intros H. constructor; eauto.
  - discriminate.
Qed.

(** A pool run that returns has opened one connection and committed once
    per completed batch, and has processed once each job of those
    batches. *)
Theorem process_xml_jobs_in_parallel_commits
    (jobs : list Job) (db_url : string) (tr tr' : trace DB)
    (batches : list (list Job)) (r : gmap string Z * Z) :
  process_xml_jobs_in_parallel jobs db_url tr = (tr', Ok r) ->
  make_batches jobs = Ok batches ->
  exists d,
    tr' = tr ++ d
    /\ count is_connect d = length (as_completed batches)
    /\ count is_commit d = length (as_completed batches)
    /\ count is_process_xml d = length (concat (as_completed batches)).
Proof.
  unfold process_xml_jobs_in_parallel. cbv zeta.
  unfold mbind at 1, M_bind at 1, lift. intros Hrun Hbatches.
  rewrite Hbatches in Hrun.
  unfold mbind at 1, M_bind at 1 in Hrun.
  destruct (pool_executor MAX_PROCESSES); [|discriminate].
  unfold mbind at 1, M_bind at 1 in Hrun.
  destruct (run_futures (as_completed batches) db_url tr)
    as [tr1 results] eqn:Hfutures.
  unfold lift in Hrun.
  destruct (collect_futures results ∅ 0) as [v|e] eqn:Hcollect;
    [|discriminate].
  injection Hrun as <- _.
  apply collect_futures_ok in Hcollect.
  by apply (run_futures_ok_counts _ _ _ _ _ Hfutures).
Qed.

(** *** The driver *)

(** The run, stage by stage. *)
Lemma process_archive_stages db db_url archive process_links tr :
  process_archive db db_url archive process_links tr
  = match build_chunks CHUNK_SIZE (Z.of_nat (length archive)) with
    | Raise e => (tr ++ [EFileReader], Raise e)
    | Ok chunks =>
        match process_chunks db db_url archive process_links
                (dataset_base stored_base) chunks
                {| rs_counts := ∅; rs_skipped := 0;
                   rs_liste_suppression := []; rs_unknown_folders := ∅ |}
                (tr ++ [EFileReader]) with
        | (tr1, Raise e) => (tr1, Raise e)
        | (tr1, Ok st) =>
            match rs_liste_suppression st with
            | [] => (tr1, Ok st)
            | _ :: _ =>
                let own_db := connect_db tr1 db_url in
                (tr1 ++ [EConnect db_url own_db; EInitProxy own_db;
                         ESuppress (dataset_base stored_base) own_db
                           (rs_liste_suppression st)],
                 Ok st)
            end
        end
    end.
Proof.
  unfold process_archive. cbv zeta.
  unfold mbind at 1, M_bind at 1, emit.
  unfold mbind at 1, M_bind at 1, lift.
  destruct (build_chunks CHUNK_SIZE (Z.of_nat (length archive)))
    as [chunks|e]; [|reflexivity].
  unfold mbind at 1, M_bind at 1.
  destruct (process_chunks db db_url archive process_links _ chunks _ _)
    as [tr1 [st|e]]; [|reflexivity].
  unfold mbind at 1, M_bind at 1, apply_suppression.
  destruct (rs_liste_suppression st) as [|id ids]; [reflexivity|].
  unfold mbind, M_bind, mret, M_ret, call_connect_db, emit.
  cbv beta iota zeta. by rewrite <- !app_assoc.
Qed.

(** An archive with fewer entries than one chunk, the empty archive
    included, is not imported at all: the run counts the entries and then
    raises [IndexError], before any entry is classified, any job
    processed or any suppression applied. *)
Theorem process_archive_small_archive_aborts
    (db : DB) (db_url : string) (archive : list Entry) (process_links : bool)
    (tr : trace DB) :
  Z.of_nat (length archive) < CHUNK_SIZE ->
  process_archive db db_url archive process_links tr
  = (tr ++ [EFileReader], Raise IndexError).
Proof.
  intros Hlen. rewrite process_archive_stages. unfold build_chunks.
  destruct (Z.eqb_spec CHUNK_SIZE 0); [lia|].
  rewrite Z.div_small by lia. reflexivity.
Qed.

Lemma process_chunks_skipped db db_url archive process_links base chunks
    st tr tr' st' :
  process_chunks db db_url archive process_links base chunks st tr
  = (tr', Ok st') ->
  rs_skipped st' = rs_skipped st.
Proof.
  revert st tr. induction chunks as [|chunk chunks IH]; intros st tr; simpl.
  - by intros [= _ <-].
  - unfold mbind at 1, M_bind at 1.
    destruct (process_chunk db db_url archive process_links base chunk st tr)
      as [tr1 [st1|err]] eqn:Hchunk; [|discriminate].
    intros Hrest. rewrite (IH _ _ Hrest). clear Hrest IH.
    destruct chunk as [s e]. unfold process_chunk in Hchunk.
    unfold mbind at 1, M_bind at 1, emit in Hchunk.
    unfold mbind at 1, M_bind at 1, lift in Hchunk.
    destruct (collect_job_args _ _ _ _ _ _ _) as [[[args liste] unknown]|];
      [|discriminate].
    unfold mbind at 1, M_bind at 1 in Hchunk.
    destruct (dispatch_jobs _ _ _ _ _ _ _ _ _) as [tr2 [[c k]|]];
      [|discriminate].
    by injection Hchunk as _ <-.
Qed.

(** A run that completes ends with a skip total of [0], whatever the
    per-document step reported: the driver never has skipped files to
    report. *)
Theorem process_archive_skipped_zero
    (db : DB) (db_url : string) (archive : list Entry) (process_links : bool)
    (tr tr' : trace DB) (st : run_state) :
  process_archive db db_url archive process_links tr = (tr', Ok st) ->
  rs_skipped st = 0.
Proof.
  rewrite process_archive_stages.
  destruct (build_chunks _ _) as [chunks|]; [|discriminate].
  destruct (process_chunks _ _ _ _ _ _ _ _) as [tr1 [st1|]] eqn:Hloop;
    [|discriminate].
  apply process_chunks_skipped in Hloop. simpl in Hloop.
  destruct (rs_liste_suppression st1); by intros [= _ <-].
Qed.

(** [suppress] is never called with an empty list, and always on the
    connection opened for it: when it is called, the two events before it
    are a [connect_db(db_url)] and the initialization of the proxy with
    the handle that call returned, which is the handle given to
    [suppress].  So when [connect_db] never answers the handle the caller
    passed in, [suppress] does not run on the caller's connection.  The
    run then completes with that list as its suppression list. *)
Theorem suppress_on_fresh_connection
    (db : DB) (db_url : string) (archive : list Entry) (process_links : bool)
    (tr : trace DB) (out : outcome run_state)
    (pre post : trace DB) (b : string) (d : DB) (ids : list string) :
  process_archive db db_url archive process_links [] = (tr, out) ->
  tr = pre ++ ESuppress b d ids :: post ->
  ids <> []
  /\ (exists body,
        pre = body ++ [EConnect db_url d; EInitProxy d]
        /\ d = connect_db body db_url)
  /\ ((forall tr0, connect_db tr0 db_url <> db) -> d <> db)
  /\ exists st, out = Ok st /\ rs_liste_suppression st = ids.
Proof.
  rewrite process_archive_stages. simpl app.
  destruct (build_chunks _ _) as [chunks|].
  2: { intros [= <- <-] Heq. by destruct pre as [|? [|? ?]]. }
  destruct (process_chunks _ _ _ _ _ _ _ _) as [tr1 [st|e]] eqn:Hloop;
    apply process_chunks_trace in Hloop as (body & -> & Hns & _).
  2: { intros [= <- <-] Heq. exfalso.
       refine (count_zero_no_split is_suppress _ pre post
                 (ESuppress b d ids) _ eq_refl Heq).
       by rewrite ?count_app, ?count_cons, Hns. }
  destruct (rs_liste_suppression st) as [|id0 ids0] eqn:Hliste.
  { intros [= <- <-] Heq. exfalso.
    refine (count_zero_no_split is_suppress _ pre post
              (ESuppress b d ids) _ eq_refl Heq).
    by rewrite ?count_app, ?count_cons, Hns. }
  cbv zeta. intros [= <- <-] Heq.
  set (own_db := connect_db (EFileReader :: body) db_url) in *.
  assert (Hshape :
            EFileReader
            :: body ++ [EConnect db_url own_db; EInitProxy own_db;
                        ESuppress (dataset_base stored_base) own_db
                          (id0 :: ids0)]
            = ((EFileReader :: body)
               ++ [EConnect db_url own_db; EInitProxy own_db])
              ++ [ESuppress (dataset_base stored_base) own_db (id0 :: ids0)]).
  { simpl. by rewrite <- app_assoc. }
  rewrite Hshape in Heq. clear Hshape.
  apply (last_event_split_unique is_suppress) in Heq
    as (-> & [= -> -> ->] & ->); [| |done].
  - split; [done|]. split; [by exists (EFileReader :: body)|].
    split; [|by exists st].
    intros Hfresh. apply Hfresh.
  - by rewrite count_app, count_cons, Hns.
Qed.

(** A run that completes has opened the archive once for the count and
    once more for every chunk: each chunk walk starts again from the
    first entry of the archive. *)
Theorem process_archive_opens_archive_per_chunk
    (db : DB) (db_url : string) (archive : list Entry) (process_links : bool)
    (tr : trace DB) (st : run_state) (chunks : list (Z * Z)) :
  process_archive db db_url archive process_links [] = (tr, Ok st) ->
  build_chunks CHUNK_SIZE (Z.of_nat (length archive)) = Ok chunks ->
  count is_file_reader tr = S (length chunks).
Proof.
  rewrite process_archive_stages. simpl app. intros Hrun Hchunks.
  rewrite Hchunks in Hrun.
  destruct (process_chunks _ _ _ _ _ _ _ _) as [tr1 [st1|e]] eqn:Hloop;
    [|discriminate].
  apply process_chunks_trace in Hloop as (body & -> & _ & Hst).
  destruct (Hst st1 eq_refl) as [Hfr _].
  destruct (rs_liste_suppression st1); injection Hrun as <- _.
  - by rewrite count_cons, Hfr.
  - rewrite count_cons, count_app, Hfr. unfold count. simpl. lia.
Qed.

End ImporterExtras.

(** ** Python primitives *)

(** Splitting on the separator loses nothing: joining the segments with
    the separator gives the path back, and no segment contains the
    separator. *)
Theorem split_on_join (s : string) :
  String.concat "/" (split_on "/" s) = s
  /\ Forall (fun seg =>
               string_forall (fun c => negb (Ascii.eqb c "/")) seg = true)
       (split_on "/" s).
Proof.
  induction s as [|c s [IHjoin IHsegs]]; simpl.
  - split; [done|]. by constructor.
  - destruct (Ascii.eqb_spec c "/") as [->|Hc].
    + split.
      * destruct (split_on "/" s) as [|seg segs] eqn:Hs.
        { by apply split_on_not_nil in Hs. }
        simpl. simpl in IHjoin. by rewrite IHjoin.
      * by constructor.
    + destruct (split_on "/" s) as [|seg segs] eqn:Hs.
      { by apply split_on_not_nil in Hs. }
      split.
      * rewrite <- IHjoin. by destruct segs.
      * inversion IHsegs as [|? ? Hseg Hrest]; subst. constructor; [|done].
        simpl. rewrite Hseg.
        by destruct (Ascii.eqb_spec c "/").
Qed.

Lemma split_ws_aux_tokens (cur : option string) (s : string) :
  match cur with
  | Some w => w <> "" /\ string_forall (fun c => negb (isspace c)) w = true
  | None => True
  end ->
  Forall (fun w => w <> ""
                   /\ string_forall (fun c => negb (isspace c)) w = true)
    (split_ws_aux cur s).
Proof.
  revert cur. induction s as [|c s IH]; intros cur Hcur; simpl.
  - destruct cur; by constructor.
  - destruct (isspace c) eqn:Hc.
    + destruct cur; [constructor; [done|]|]; by apply IH.
    + apply IH. destruct cur as [w|].
      * destruct Hcur as [Hne Hw]. split.
        -- by destruct w.
        -- clear Hne. induction w as [|c' w IHw]; simpl in *.
           ++ by rewrite Hc.
           ++ apply andb_true_iff in Hw as [-> Hw]. by apply IHw.
      * split; [done|]. simpl. by rewrite Hc.
Qed.

Lemma string_app_nil_r (s : string) : s +:+ "" = s.
Proof.
  induction s as [|c s IH]; [done|].
  change (String c (s +:+ "") = String c s). by rewrite IH.
Qed.

Lemma string_app_snoc (s w : string) (c : ascii) :
  (s +:+ String c "") +:+ w = s +:+ String c w.
Proof.
  induction s as [|a s IH]; [done|].
  change (String a ((s +:+ String c "") +:+ w) = String a (s +:+ String c w)).
  by rewrite IH.
Qed.

Lemma split_ws_aux_word (w cur : string) :
  string_forall (fun c => negb (isspace c)) w = true ->
  split_ws_aux (Some cur) w = [cur +:+ w].
Proof.
  revert cur. induction w as [|c w IH]; intros cur Hw; simpl.
  - by rewrite string_app_nil_r.
  - apply andb_true_iff in Hw as [Hc Hw].
    apply negb_true_iff in Hc. rewrite Hc, IH by done.
    by rewrite string_app_snoc.
Qed.

(** The identifiers [split()] yields are never empty and contain no
    blank; a non-empty word without blanks is split into itself. *)
Theorem split_ws_tokens (s : string) :
  Forall (fun w => w <> ""
                   /\ string_forall (fun c => negb (isspace c)) w = true)
    (split_ws s)
  /\ (s <> "" ->
      string_forall (fun c => negb (isspace c)) s = true ->
      split_ws s = [s]).
Proof.
  split.
  - by apply split_ws_aux_tokens.
  - intros Hne Hs. unfold split_ws. destruct s as [|c s]; [done|].
    simpl in *. apply andb_true_iff in Hs as [Hc Hs].
    apply negb_true_iff in Hc. rewrite Hc.
    by rewrite split_ws_aux_word.
Qed.

Lemma split_ws_tokens_witness :
  split_ws "JORFTEXT000000000001" = ["JORFTEXT000000000001"].
Proof.
  apply (split_ws_tokens "JORFTEXT000000000001"); [discriminate|reflexivity].
Defined.

(** Decoding succeeds exactly on bytes below 128 and then keeps every
    byte; any other payload raises [UnicodeDecodeError]. *)
Theorem decode_ascii_spec (b : list byte) :
  (Forall (fun x => (Byte.to_N x < 128)%N) b ->
   decode_ascii b = Ok (string_of_list_byte b)
   /\ list_byte_of_string (string_of_list_byte b) = b)
  /\ (~ Forall (fun x => (Byte.to_N x < 128)%N) b ->
      decode_ascii b = Raise UnicodeDecodeError).
Proof.
  split.
  - intros Hall. split; [|apply list_byte_of_string_of_list_byte].
    induction Hall as [|x b Hx _ IH]; simpl; [done|].
    apply N.ltb_lt in Hx. by rewrite Hx, IH.
  - induction b as [|x b IH]; simpl; intros Hnot.
    + destruct Hnot. constructor.
    + destruct (N.ltb_spec (Byte.to_N x) 128) as [Hx|Hx]; [|done].
      rewrite IH; [done|]. intros Hall. apply Hnot. by constructor.
Qed.

Lemma decode_ascii_spec_witness :
  decode_ascii [x4a; x4f]%byte = Ok "JO"
  /\ decode_ascii [x4a; xe9]%byte = Raise UnicodeDecodeError.
Proof.
  split.
  - apply (decode_ascii_spec [x4a; x4f]%byte).
    repeat constructor.
  - apply (decode_ascii_spec [x4a; xe9]%byte).
    intros H. inversion H as [|? ? _ H']. inversion H' as [|? ? Hx _].
    vm_compute in Hx. discriminate.
Defined.

(** ** Outcomes of the classifier *)

Section ClassifierExtras.

Variable get_table : list string -> option string.
Variable get_dossier : list string -> string -> option string.

Abbreviation classify :=
  (get_process_xml_job_args_for_entry get_table get_dossier).
Abbreviation route := (route_parts get_table get_dossier).

Ltac unfold_outcome :=
  unfold mbind, outcome_bind, mret, outcome_ret in *; cbv beta iota in *.

Lemma index_raises {A} (l : list A) (i : nat) (e : exn) :
  index l i = Raise e -> e = IndexError.
Proof. unfold index. destruct (l !! i); [discriminate|]. by intros [= <-]. Qed.

Lemma index_last_raises {A} (l : list A) (e : exn) :
  index_last l = Raise e -> e = IndexError.
Proof.
  unfold index_last. destruct (last l); [discriminate|]. by intros [= <-].
Qed.

Lemma decode_ascii_raises (b : list byte) (e : exn) :
  decode_ascii b = Raise e -> e = UnicodeDecodeError.
Proof.
  induction b as [|x b IH]; simpl; [discriminate|].
  destruct (Byte.to_N x <? 128)%N; [|by intros [= <-]].
  destruct (decode_ascii b); [discriminate|]. intros [= <-]. by apply IH.
Qed.

Lemma unknown_folder_test_raises (parts : list string) (e : exn) :
  unknown_folder_test parts = Raise e -> e = IndexError.
Proof.
  unfold unknown_folder_test, or_else, and_then. unfold_outcome.
  destruct (index parts 0) as [p0|e0] eqn:H0.
  2: { intros [= <-]. by apply index_raises in H0. }
  destruct (index parts 2) as [p2|e2] eqn:H2.
  - repeat match goal with
           | |- context [if ?b then _ else _] => destruct b
           end; discriminate.
  - apply index_raises in H2 as ->.
    repeat match goal with
           | |- context [if ?b then _ else _] => destruct b
           end; congruence.
Qed.

Lemma route_parts_cases entry parts base unknown process_links :
  match route entry parts base unknown process_links with
  | Ok (None, unknown') => exists key, unknown' = incr unknown key 1
  | Ok (Some job, unknown') => unknown' = unknown
  | Raise e => e = IndexError
  end.
Proof.
  unfold route_parts. unfold_outcome.
  destruct (unknown_folder_test parts) as [[|]|e] eqn:Htest.
  - destruct (index parts 2) as [p2|e] eqn:H2; [by exists p2|].
    by apply index_raises in H2.
  - assert (Hcid : match (if String.eqb base "LEGI"
                          then match index parts 11 with
                               | Ok p11 => Ok (Some p11)
                               | Raise e => Raise e
                               end
                          else Ok None) with
                   | Ok _ => True
                   | Raise e => e = IndexError
                   end).
    { destruct (String.eqb base "LEGI"); [|done].
      destruct (index parts 11) eqn:H11; [done|].
      by apply index_raises in H11. }
    destruct (if String.eqb base "LEGI" then _ else _) as [cid|e];
      [|exact Hcid].
    destruct (index_last parts) as [name|e] eqn:Hlast.
    + destruct (get_table parts); [done|by eexists].
    + by apply index_last_raises in Hlast.
  - by apply unknown_folder_test_raises in Htest.
Qed.

Lemma classify_ok_cases entry base liste unknown process_links
    job liste' unknown' :
  classify entry base liste unknown process_links
  = Ok (job, liste', unknown') ->
  (job = None
   /\ liste' = liste ++ suppression_ids_of_entry base entry
   /\ unknown' = unknown
   /\ is_ignored base entry = true)
  \/ (job = None /\ liste' = liste
      /\ (exists key, unknown' = incr unknown key 1)
      /\ is_ignored base entry = false)
  \/ (is_Some job /\ liste' = liste /\ unknown' = unknown
      /\ is_ignored base entry = false).
Proof.
  unfold get_process_xml_job_args_for_entry, suppression_ids_of_entry,
    is_ignored.
  cbv zeta. unfold_outcome.
  destruct (last_char (pathname entry)) as [c|]; [|discriminate].
  destruct (Ascii.eqb c "/").
  { intros [= <- <- <-]. left. by rewrite app_nil_r. }
  destruct (index_last_split_on "/" (pathname entry)) as (name & -> & ->).
  destruct (String.eqb name (suppression_file base)).
  { destruct (decode_ascii _); [|discriminate].
    intros [= <- <- <-]. by left. }
  destruct (strip_base_prefix _ _ _) as [[path parts]|]; [|discriminate].
  pose proof (route_parts_cases entry parts base unknown process_links)
    as Hroute.
  destruct (route entry parts base unknown process_links)
    as [[[j|] u]|]; [| |discriminate]; intros [= <- <- <-]; right.
  - right. subst. eauto.
  - left. eauto.
Qed.

(** A call of the classifier that returns has touched at most one of the
    two accumulators: either it returns no job and has appended the
    identifiers of the entry to the suppression list (nothing for a
    directory), or it returns no job and has added one to a single
    counter of the tally, or it returns a job and has changed nothing. *)
Theorem classify_effects entry base liste unknown process_links
    job liste' unknown' :
  classify entry base liste unknown process_links
  = Ok (job, liste', unknown') ->
  (job = None
   /\ liste' = liste ++ suppression_ids_of_entry base entry
   /\ unknown' = unknown
   /\ is_ignored base entry = true)
  \/ (job = None /\ liste' = liste
      /\ (exists key, unknown' = incr unknown key 1)
      /\ is_ignored base entry = false)
  \/ (is_Some job /\ liste' = liste /\ unknown' = unknown
      /\ is_ignored base entry = false).
Proof. apply classify_ok_cases. Qed.

(** *** Suppression list files *)

Lemma split_on_trailing_separator (s : string) :
  last_char s = Ok "/"%char ->
  exists segs, segs <> [] /\ split_on "/" s = segs ++ [""].
Proof.
  induction s as [|c s IH]; simpl; [discriminate|].
  destruct s as [|c' s'].
  - intros [= ->]. exists [""]. done.
  - intros Hlast. destruct (IH Hlast) as (segs & Hne & Hsplit).
    rewrite Hsplit. destruct (Ascii.eqb c "/").
    + exists ("" :: segs). done.
    + destruct segs as [|seg segs]; [done|].
      exists (String c seg :: segs). done.
Qed.

Lemma last_segment_not_directory (s name : string) :
  last (split_on "/" s) = Some name -> name <> "" ->
  exists c, last_char s = Ok c /\ Ascii.eqb c "/" = false.
Proof.
  intros Hlast Hname. destruct (last_char s) as [c|e] eqn:Hc.
  - exists c. split; [done|]. destruct (Ascii.eqb_spec c "/") as [->|]; [|done].
    destruct (split_on_trailing_separator s Hc) as (segs & _ & Hsplit).
    rewrite Hsplit, last_snoc in Hlast. congruence.
  - apply last_char_raise_empty in Hc. subst s. simpl in Hlast. congruence.
Qed.

Lemma suppression_file_not_empty (base : string) : suppression_file base <> "".
Proof. discriminate. Qed.

(** A file named [liste_suppression_<base>.dat] is a suppression list
    wherever it sits in the tree, at the top of the archive included: no
    segment other than the last is looked at.  Its payload, when it is
    ASCII, is split into identifiers that are appended to the list; no
    job is returned and the tally is untouched.  A payload that is not
    ASCII raises [UnicodeDecodeError]. *)
Theorem classify_suppression_file entry base liste unknown process_links :
  last (split_on "/" (pathname entry)) = Some (suppression_file base) ->
  classify entry base liste unknown process_links
  = match decode_ascii (concat (get_blocks entry)) with
    | Ok text => Ok (None, liste ++ split_ws text, unknown)
    | Raise _ => Raise UnicodeDecodeError
    end.
Proof.
  intros Hlast.
  destruct (last_segment_not_directory _ _ Hlast
              (suppression_file_not_empty base)) as (c & Hc & Hsep).
  unfold get_process_xml_job_args_for_entry, index_last. cbv zeta.
  unfold_outcome. rewrite Hc, Hsep, Hlast, String.eqb_refl.
  destruct (decode_ascii _) as [text|e] eqn:Hd; [done|].
  by apply decode_ascii_raises in Hd as ->.
Qed.

(** *** Valid jobs *)

(** An entry that passes the checks and has a table gives a job
    descriptor made of the joined payload, the entry's time stamp, the
    base, the table and dossier of the effective segments, the text
    identifier (the last segment without its last four characters) and,
    for the base [LEGI] only, the twelfth segment as container
    identifier; neither accumulator changes. *)
Theorem classify_valid_job entry base liste unknown process_links
    table name text_cid :
  let parts := effective_parts base (pathname entry) in
  last_char (pathname entry) <> Ok "/"%char ->
  last (split_on "/" (pathname entry)) <> Some (suppression_file base) ->
  unknown_folder_test parts = Ok false ->
  get_table parts = Some table ->
  last parts = Some name ->
  (String.eqb base "LEGI" = false /\ text_cid = None)
  \/ (String.eqb base "LEGI" = true
      /\ is_Some text_cid /\ parts !! 11%nat = text_cid) ->
  classify entry base liste unknown process_links
  = Ok (Some {| xml_blob := concat (get_blocks entry);
                job_mtime := mtime entry;
                job_base := base;
                job_table := table;
                job_dossier := get_dossier parts base;
                job_text_cid := text_cid;
                job_text_id := strip_last4 name;
                job_process_links := process_links |},
        liste, unknown).
Proof.
  intros parts Hdir Hname Htest Htable Hlast Hcid.
  rewrite (classify_routes _ _ _ _ _ _ _ Hdir Hname). fold parts.
  unfold route_parts, routed, index_last. unfold_outcome.
  rewrite Htest, Htable, Hlast.
  destruct Hcid as [[-> ->]|(-> & [p11 ->] & H11)]; [done|].
  unfold index. by rewrite H11.
Qed.

(** *** Accounting for the walked entries *)

Lemma tally_total_insert_fresh (d : gmap string Z) (key : string) (n : Z) :
  d !! key = None -> tally_total (<[key := n]> d) = n + tally_total d.
Proof.
  intros Hkey. unfold tally_total.
  rewrite map_fold_insert_L; [done| |done]. intros; lia.
Qed.

Lemma tally_total_incr (d : gmap string Z) (key : string) (n : Z) :
  tally_total (incr d key n) = tally_total d + n.
Proof.
  unfold incr. destruct (d !! key) as [v|] eqn:Hkey; simpl.
  - rewrite <- (insert_delete_eq d key (v + n)).
    rewrite tally_total_insert_fresh by apply lookup_delete_eq.
    rewrite <- (insert_id d key v Hkey) at 2.
    rewrite <- (insert_delete_eq d key v).
    rewrite tally_total_insert_fresh by apply lookup_delete_eq. lia.
  - rewrite tally_total_insert_fresh by done. lia.
Qed.

(** Every walked entry is accounted for exactly once: when the list
    comprehension over a chunk completes, the number of entries equals
    the number of jobs produced, plus the growth of the tally, plus the
    number of directories and suppression list files; there is one
    result per entry. *)
Theorem collect_job_args_accounts entries base liste unknown process_links
    args liste' unknown' :
  collect_job_args get_table get_dossier entries base liste unknown
    process_links = Ok (args, liste', unknown') ->
  length args = length entries
  /\ Z.of_nat (length entries)
     = Z.of_nat (length (not_none args))
       + (tally_total unknown' - tally_total unknown)
       + Z.of_nat (length (List.filter (is_ignored base) entries)).
Proof.
  revert liste unknown args liste' unknown'.
  induction entries as [|entry entries IH]; simpl;
    intros liste unknown args liste' unknown'.
  - intros [= <- _ <-]. simpl. split; [done|lia].
  - unfold_outcome.
    destruct (classify entry base liste unknown process_links)
      as [[[a l1] u1]|] eqn:Hc; [|discriminate].
    destruct (collect_job_args _ _ entries _ _ _ _)
      as [[[args2 l2] u2]|] eqn:Hr; [|discriminate].
    intros [= <- _ <-]. destruct (IH _ _ _ _ _ Hr) as [Hlen Hacc].
    split; [simpl; lia|].
    change (length (entry :: entries)) with (S (length entries)).
    rewrite Nat2Z.inj_succ.
    set (jobs2 := not_none args2) in *.
    apply classify_ok_cases in Hc
      as [(-> & _ & -> & Hig)|[(-> & _ & [key ->] & Hig)
                              |([j ->] & _ & -> & Hig)]];
      rewrite Hig; rewrite ?tally_total_incr in *.
    + change (not_none (None :: args2)) with jobs2. simpl length. lia.
    + change (not_none (None :: args2)) with jobs2. lia.
    + change (not_none (Some j :: args2)) with (j :: jobs2).
      simpl length. lia.
Qed.

End ClassifierExtras.

(** ** Chunk lists again, and the further properties on concrete inputs *)

(** For an archive that holds at least one full chunk the construction
    succeeds and the chunks tile [[0, total)]: consecutive, non-empty
    ranges from [0] to [total], the full chunks first and then the
    remainder when there is one, [total / CHUNK_SIZE] chunks plus one for
    the remainder. *)
Theorem build_chunks_partition (CHUNK_SIZE total : Z) :
  0 < CHUNK_SIZE <= total ->
  exists chunks,
    build_chunks CHUNK_SIZE total = Ok chunks
    /\ tiles 0 chunks total
    /\ Forall (fun chunk : Z * Z => chunk.2 - chunk.1 <= CHUNK_SIZE) chunks
    /\ Z.of_nat (length chunks)
       = total / CHUNK_SIZE + (if total mod CHUNK_SIZE >? 0 then 1 else 0).
Proof.
  intros H. destruct (build_chunks_tiles CHUNK_SIZE total H)
    as (chunks & Hok & Htiles & ->).
  eexists. split; [exact Hok|]. split; [exact Htiles|].
  pose proof (Z.mod_pos_bound total CHUNK_SIZE ltac:(lia)) as Hmod.
  pose proof (Z.div_mod total CHUNK_SIZE ltac:(lia)) as Hdiv.
  assert (0 <= total / CHUNK_SIZE) by (apply Z.div_pos; lia).
  split.
  - apply Forall_app. split.
    + apply Forall_forall. intros [s e] Hin.
      apply list_elem_of_In, in_map_iff in Hin as (i & [= <- <-] & _).
      simpl. lia.
    + destruct (total mod CHUNK_SIZE >? 0); repeat constructor.
      simpl. lia.
  - rewrite length_app, length_map, range_length.
    destruct (total mod CHUNK_SIZE >? 0); simpl length; lia.
Qed.

Lemma build_chunks_partition_witness :
  exists chunks,
    build_chunks source_CHUNK_SIZE 1200000 = Ok chunks
    /\ tiles 0 chunks 1200000
    /\ Z.of_nat (length chunks) = 3.
Proof.
  destruct (build_chunks_partition source_CHUNK_SIZE 1200000)
    as (chunks & Hok & Htiles & _ & Hlen).
  - unfold source_CHUNK_SIZE. lia.
  - exists chunks. split; [exact Hok|]. split; [exact Htiles|].
    rewrite Hlen. reflexivity.
Defined.

Lemma process_xml_jobs_sync_skipped_zero_witness :
  match (process_xml_jobs_sync sample_process_xml three_jobs false 7%nat true
           []).2 with
  | Ok (_, skipped) => skipped = 0
  | Raise _ => False
  end.
Proof.
  destruct (process_xml_jobs_sync sample_process_xml three_jobs false 7%nat
              true []) as [tr' [[counts skipped]|e]] eqn:Hrun; simpl.
  - exact (process_xml_jobs_sync_skipped_zero sample_process_xml three_jobs
             false 7%nat true [] tr' counts skipped Hrun).
  - vm_compute in Hrun. discriminate.
Defined.

Lemma process_xml_jobs_sync_totals_witness :
  exists tr' counts,
    process_xml_jobs_sync sample_process_xml three_jobs false 7%nat true []
    = (tr', Ok (counts, 0))
    /\ count_of counts "add" = 9.
Proof.
  destruct (process_xml_jobs_sync_totals sample_process_xml sample_report
              three_jobs false 7%nat true [])
    as (tr' & counts & Hrun & Htot).
  - reflexivity.
  - exists tr', counts. split; [exact Hrun|]. rewrite Htot. reflexivity.
Defined.

Lemma process_xml_jobs_sync_stops_at_failure_witness :
  failing_process_xml [EProcessXml (job_valid "articles" None); ECommit 7%nat]
    (job_valid "broken" None)
  = Raise (ExternalError "process_xml")
  /\ process_xml_jobs_sync failing_process_xml jobs_with_failure false
       7%nat true []
     = ([EProcessXml (job_valid "articles" None); ECommit 7%nat;
         EProcessXml (job_valid "broken" None)],
        Raise (ExternalError "process_xml")).
Proof.
  split; [reflexivity|].
  destruct (process_xml_jobs_sync_stops_at_failure failing_process_xml
              jobs_with_failure false 7%nat true []
              (ExternalError "process_xml")) as [Hstops _].
  apply (Hstops [job_valid "articles" None] (job_valid "broken" None)
           [job_valid "sections" None]).
  - reflexivity.
  - intros d1 j d2 Hsplit. destruct d1 as [|j1 d1].
    + injection Hsplit as <- _. eexists. reflexivity.
    + injection Hsplit as _ Hnil. by destruct d1.
  - reflexivity.
Defined.

Lemma make_batches_partition_witness :
  exists batches,
    make_batches 2 three_jobs = Ok batches
    /\ concat batches = three_jobs.
Proof.
  destruct (make_batches_partition 2 three_jobs)
    as (batches & Hok & Hcat & _); [lia|].
  exists batches. split; [exact Hok | exact Hcat].
Defined.

Lemma process_xml_jobs_in_parallel_totals_witness :
  (exists tr' counts,
      process_xml_jobs_in_parallel 2 None sample_connect_db sample_process_xml
        sample_as_completed three_jobs "db" []
      = (tr', Ok (counts, 0))
      /\ count_of counts "update" = 3)
  /\ process_xml_jobs_in_parallel 2 (Some 0) sample_connect_db
       sample_process_xml sample_as_completed three_jobs "db" []
     = ([], Raise ValueError).
Proof.
  split.
  - destruct (process_xml_jobs_in_parallel_totals 2 None sample_connect_db
                sample_process_xml sample_as_completed sample_report
                three_jobs "db" [] ltac:(lia)) as [Htotals _].
    destruct Htotals as (tr' & counts & Hrun & Htot).
    + reflexivity.
    + intros batches. symmetry. apply Permutation_rev.
    + discriminate.
    + exists tr', counts. split; [exact Hrun|]. rewrite Htot. reflexivity.
  - destruct (process_xml_jobs_in_parallel_totals 2 (Some 0)
                sample_connect_db sample_process_xml sample_as_completed
                sample_report three_jobs "db" [] ltac:(lia)) as [_ Hraise].
    apply (Hraise 0); [reflexivity|lia].
Defined.

Lemma process_xml_jobs_in_parallel_commits_witness :
  exists d,
    (process_xml_jobs_in_parallel 2 None sample_connect_db sample_process_xml
       sample_as_completed three_jobs "db" []).1 = [] ++ d
    /\ count is_connect d = 2%nat
    /\ count is_commit d = 2%nat
    /\ count is_process_xml d = 3%nat.
Proof.
  destruct (process_xml_jobs_in_parallel 2 None sample_connect_db
              sample_process_xml sample_as_completed three_jobs "db" [])
    as [tr' [r|e]] eqn:Hrun.
  - destruct (process_xml_jobs_in_parallel_commits 2 None sample_connect_db
                sample_process_xml sample_as_completed three_jobs "db" []
                tr' (slices 3 2 three_jobs) r Hrun eq_refl)
      as (d & -> & Hc & Hm & Hp).
    exists d. split; [done|]. split; [exact Hc|]. split; [exact Hm|exact Hp].
  - vm_compute in Hrun. discriminate.
Defined.

Lemma process_archive_small_archive_aborts_witness :
  process_archive source_PROCESS_XML_JOBS_BATCH_SIZE None source_CHUNK_SIZE
    sample_get_table sample_get_dossier sample_connect_db sample_process_xml
    sample_as_completed (Some "JORF") 0%nat "db" sample_archive true []
  = ([] ++ [EFileReader], Raise IndexError).
Proof.
  apply process_archive_small_archive_aborts.
  unfold source_CHUNK_SIZE. simpl. lia.
Defined.

Lemma process_archive_skipped_zero_witness :
  match (process_archive source_PROCESS_XML_JOBS_BATCH_SIZE None 2
           sample_get_table sample_get_dossier sample_connect_db
           sample_process_xml sample_as_completed (Some "JORF")
           0%nat "db" sample_archive true []).2 with
  | Ok st => rs_skipped st = 0
  | Raise _ => False
  end.
Proof.
  destruct (process_archive source_PROCESS_XML_JOBS_BATCH_SIZE None 2
              sample_get_table sample_get_dossier sample_connect_db
              sample_process_xml sample_as_completed (Some "JORF")
              0%nat "db" sample_archive true []) as [tr [st|e]] eqn:Hrun;
    simpl.
  - exact (process_archive_skipped_zero _ _ _ _ _ _ _ _ _ _ _ _ _ _ _ _
             Hrun).
  - vm_compute in Hrun. discriminate.
Defined.

Lemma suppress_on_fresh_connection_witness :
  exists pre d ids,
    (process_archive source_PROCESS_XML_JOBS_BATCH_SIZE None 2
       sample_get_table sample_get_dossier fresh_connect_db
       sample_process_xml sample_as_completed (Some "JORF")
       0%nat "db" sample_archive true []).1
    = pre ++ [ESuppress "JORF" d ids]
    /\ ids <> []
    /\ (exists body,
          pre = body ++ [EConnect "db" d; EInitProxy d]
          /\ d = fresh_connect_db body "db")
    /\ d <> 0%nat.
Proof.
  destruct (process_archive source_PROCESS_XML_JOBS_BATCH_SIZE None 2
              sample_get_table sample_get_dossier fresh_connect_db
              sample_process_xml sample_as_completed (Some "JORF")
              0%nat "db" sample_archive true []) as [tr out] eqn:Hrun.
  assert (Hshape : exists pre d ids, tr = pre ++ ESuppress "JORF" d ids :: []).
  { pose proof Hrun as H. vm_compute in H. injection H as <- _.
    match goal with
    | |- exists pre d ids, ?L = _ => exists (removelast L)
    end.
    do 2 eexists. reflexivity. }
  destruct Hshape as (pre & d & ids & Hsplit).
  destruct (suppress_on_fresh_connection _ _ _ _ _ _ _ _ _ _ _ _ _ _ _ _
              _ _ _ _ Hrun Hsplit) as (Hne & Hbody & Hfresh & _).
  exists pre, d, ids. simpl. split; [exact Hsplit|]. split; [exact Hne|].
  split; [exact Hbody|].
  apply Hfresh. intros tr0. unfold fresh_connect_db. discriminate.
Defined.

Lemma process_archive_opens_archive_per_chunk_witness :
  count is_file_reader
    (process_archive source_PROCESS_XML_JOBS_BATCH_SIZE None 2
       sample_get_table sample_get_dossier sample_connect_db
       sample_process_xml sample_as_completed (Some "JORF")
       0%nat "db" sample_archive true []).1
  = 4%nat.
Proof.
  destruct (process_archive source_PROCESS_XML_JOBS_BATCH_SIZE None 2
              sample_get_table sample_get_dossier sample_connect_db
              sample_process_xml sample_as_completed (Some "JORF")
              0%nat "db" sample_archive true []) as [tr [st|e]] eqn:Hrun;
    simpl.
  - exact (process_archive_opens_archive_per_chunk _ _ _ _ _ _ _ _ _ _ _ _
             _ _ _ [(0, 2); (2, 4); (4, 5)] Hrun eq_refl).
  - vm_compute in Hrun. discriminate.
Defined.

Lemma classify_effects_witness :
  is_ignored "JORF" entry_unrecognized = false
  /\ exists key, incr ∅ "misc" 1 = incr (∅ : gmap string Z) key 1.
Proof.
  destruct (classify_effects sample_get_table sample_get_dossier
              entry_unrecognized "JORF" [] ∅ true
              None [] (incr ∅ "misc" 1) eq_refl)
    as [(_ & _ & _ & Hig)|[(_ & _ & Hkey & Hig)|([j Hj] & _)]].
  - vm_compute in Hig. discriminate.
  - split; [exact Hig | exact Hkey].
  - discriminate.
Defined.

Lemma classify_suppression_file_witness :
  get_process_xml_job_args_for_entry sample_get_table sample_get_dossier
    entry_suppression "JORF" [] ∅ true
  = Ok (None, ["JORFTEXT000000000001"; "JORFARTI2"], ∅).
Proof.
  rewrite (classify_suppression_file sample_get_table sample_get_dossier
             entry_suppression "JORF" [] ∅ true eq_refl).
  reflexivity.
Defined.

Lemma classify_valid_job_witness :
  get_process_xml_job_args_for_entry sample_get_table sample_get_dossier
    entry_valid "JORF" [] ∅ true
  = Ok (Some (job_valid "articles" None), [], ∅).
Proof.
  apply (classify_valid_job sample_get_table sample_get_dossier entry_valid
           "JORF" [] ∅ true "articles" "JORFARTI000000000001.xml" None).
  - vm_compute. congruence.
  - vm_compute. congruence.
  - reflexivity.
  - reflexivity.
  - reflexivity.
  - left. split; reflexivity.
Defined.

Lemma collect_job_args_accounts_witness :
  Z.of_nat (length [entry_directory; entry_unrecognized; entry_disallowed;
                    entry_valid])
  = Z.of_nat (length [job_valid "articles" None])
    + (tally_total (<["misc" := 1]> (<["disallowed_category" := 1]> ∅))
       - tally_total ∅)
    + Z.of_nat (length (List.filter (is_ignored "JORF")
                          [entry_directory; entry_unrecognized;
                           entry_disallowed; entry_valid])).
Proof.
  apply (collect_job_args_accounts sample_get_table sample_get_dossier
           [entry_directory; entry_unrecognized; entry_disallowed; entry_valid]
           "JORF" [] ∅ true
           [None; None; None; Some (job_valid "articles" None)] []
           (<["misc" := 1]> (<["disallowed_category" := 1]> ∅))).
  vm_compute. reflexivity.
Defined.
